(** * The real-time execution-tracking client

    A shallow embedding of [frontend/src/services/websocket.ts] (the
    [WebSocketClient] class) and of the aggregation part of
    [frontend/src/hooks/useWebSocket.ts], together with the small piece of the
    browser they run against: WebSocket objects, timers, promises and the
    console.  JavaScript runs one task at a time, so every method, every
    socket callback and every timer callback is a function from worlds to
    worlds; the browser picks which one runs next. *)

From stdpp Require Import gmap strings list.
From Stdlib Require Import ZArith.

Open Scope string_scope.
Open Scope list_scope.

(** ** types/apiTypes.ts *)

Record ExecutionUpdate := {
  eu_type : string;
  eu_execution_id : string;
  eu_status : string;
  eu_progress : Z;
  eu_current_agent : option string;
  eu_current_task : option string;
  eu_output : option string;
  eu_error : option string
}.

(** [data?: any].  The values that occur: an [ExecutionUpdate] coming from
    the backend, and the two payloads the client builds itself for its
    [connected] and [disconnected] events. *)
Inductive Data :=
| DUpdate (u : ExecutionUpdate)
| DClientId (clientId : string)
| DClose (code : Z) (reason : string).

(** Reading the property [type] of a payload ([undefined] is [None]). *)
Definition data_type (d : Data) : option string :=
  match d with
  | DUpdate u => Some (eu_type u)
  | DClientId _ | DClose _ _ => None
  end.

Record WebSocketMessage := {
  msg_type : string;
  execution_id : option string;
  data : option Data;
  timestamp : option string;
  error : option string
}.

(** The object literals the client passes to [sendMessage]. *)
Record Frame := {
  f_type : string;
  f_execution_id : option string
}.

(** ** The browser side *)

Inductive ReadyState := CONNECTING | OPEN | CLOSING | CLOSED.

#[global] Instance ReadyState_eq_dec : EqDecision ReadyState.
Proof. solve_decision. Defined.

(** Who waits on the promise returned by a call of [connect]: some caller,
    the hook (which attaches [.catch(console.error)]), or the timer callback
    of [attemptReconnect], which goes on to resubscribe. *)
Inductive Continuation := KCaller | KHook | KReconnect.

(** A WebSocket object together with the promise of the [connect] call that
    created it ([settled]: [resolve] or [reject] has been called). *)
Record Socket := {
  readyState : ReadyState;
  closeCall : option (Z * string);
  settled : bool;
  awaiting : Continuation
}.

Inductive Exception :=
| TypeError
| InvalidStateError
| HandlerError.

Inductive TimerAction :=
| TReconnect
| TWaitMessage (type : string) (handler promise : nat)
| TWaitCompletion (executionId : string) (handler promise : nat).

Inductive PromiseState :=
| Pending
| Resolved (message : WebSocketMessage)
| Rejected (reason : string).

Inductive Level := LevelLog | LevelWarn | LevelError.

Inductive LogEntry :=
| LogConnected
| LogDisconnected (code : Z) (reason : string)
| LogReconnecting (attempt max : nat) (delay : Z)
| WarnNotConnected
| ErrParsing (raw : string)
| ErrSocket
| ErrReconnectFailed
| ErrInHandler (e : Exception)
| ErrHook (error : option string)
| ErrConnectRejected.

Definition level (entry : LogEntry) : Level :=
  match entry with
  | LogConnected | LogDisconnected _ _ | LogReconnecting _ _ _ => LevelLog
  | WarnNotConnected => LevelWarn
  | _ => LevelError
  end.

(** ** Handlers

    [eventHandlers] stores closures.  A closure is compared by reference
    ([indexOf]), which is its [hid]; what it does when called is its
    [behaviour]: the five handlers of the hook, the one-shot handlers built by
    [waitForMessage] and [waitForCompletion], and a handler of some other
    caller that leaves the client alone and returns or throws. *)
Inductive Behaviour :=
| BhHookConnect
| BhHookDisconnect
| BhHookMessage
| BhHookExecutionUpdate
| BhHookError
| BhWaitMessage (type : string) (timeoutId promise : nat)
| BhWaitCompletion (executionId : string) (timeoutId promise : nat)
| BhExternal (throws : WebSocketMessage → bool).

Record Handler := {
  hid : nat;
  behaviour : Behaviour
}.

(** One invocation of a handler by [emit]. *)
Record Call := {
  call_event : string;
  call_hid : nat;
  call_message : WebSocketMessage;
  call_threw : bool
}.

(** ** State *)

Definition maxReconnectAttempts : nat := 5.
Definition reconnectDelay : Z := 1000.

Record Client := {
  url : string;
  clientId : string;
  ws : option nat;
  connected : bool;
  reconnectAttempts : nat;
  eventHandlers : gmap string (list Handler);
  subscriptions : gset string
}.

(** Sockets, timers, promises and closures are numbered in the order of their
    creation.  [timeouts] keeps every [setTimeout] call; [expired] holds the
    timers that fired or were cleared.  [outbox] is what went through
    [WebSocket.send], per socket, and [calls] the handler invocations. *)
Record Runtime := {
  sockets : list Socket;
  outbox : list (nat * Frame);
  timeouts : list (Z * TimerAction);
  expired : gset nat;
  promises : list PromiseState;
  console : list LogEntry;
  closures : nat;
  calls : list Call
}.

(** The React state of [useWebSocket]. *)
Record HookState := {
  hk_connected : bool;
  hk_messages : list WebSocketMessage;
  hk_executionUpdates : gmap string (list (option Data))
}.

Record World := {
  client : Client;
  rt : Runtime;
  hook : HookState
}.

Definition upd_client (f : Client → Client) (w : World) : World :=
  {| client := f (client w); rt := rt w; hook := hook w |}.
Definition upd_rt (f : Runtime → Runtime) (w : World) : World :=
  {| client := client w; rt := f (rt w); hook := hook w |}.
Definition upd_hook (f : HookState → HookState) (w : World) : World :=
  {| client := client w; rt := rt w; hook := f (hook w) |}.

Definition set_ws (v : option nat) : World → World :=
  upd_client (λ c, {| url := url c; clientId := clientId c; ws := v;
    connected := connected c; reconnectAttempts := reconnectAttempts c;
    eventHandlers := eventHandlers c; subscriptions := subscriptions c |}).
Definition set_connected (v : bool) : World → World :=
  upd_client (λ c, {| url := url c; clientId := clientId c; ws := ws c;
    connected := v; reconnectAttempts := reconnectAttempts c;
    eventHandlers := eventHandlers c; subscriptions := subscriptions c |}).
Definition set_reconnectAttempts (v : nat) : World → World :=
  upd_client (λ c, {| url := url c; clientId := clientId c; ws := ws c;
    connected := connected c; reconnectAttempts := v;
    eventHandlers := eventHandlers c; subscriptions := subscriptions c |}).
Definition set_eventHandlers (v : gmap string (list Handler)) : World → World :=
  upd_client (λ c, {| url := url c; clientId := clientId c; ws := ws c;
    connected := connected c; reconnectAttempts := reconnectAttempts c;
    eventHandlers := v; subscriptions := subscriptions c |}).
Definition set_subscriptions (v : gset string) : World → World :=
  upd_client (λ c, {| url := url c; clientId := clientId c; ws := ws c;
    connected := connected c; reconnectAttempts := reconnectAttempts c;
    eventHandlers := eventHandlers c; subscriptions := v |}).

Definition set_sockets (v : list Socket) : World → World :=
  upd_rt (λ r, {| sockets := v; outbox := outbox r; timeouts := timeouts r;
    expired := expired r; promises := promises r; console := console r;
    closures := closures r; calls := calls r |}).
Definition set_outbox (v : list (nat * Frame)) : World → World :=
  upd_rt (λ r, {| sockets := sockets r; outbox := v; timeouts := timeouts r;
    expired := expired r; promises := promises r; console := console r;
    closures := closures r; calls := calls r |}).
Definition set_timeouts (v : list (Z * TimerAction)) : World → World :=
  upd_rt (λ r, {| sockets := sockets r; outbox := outbox r; timeouts := v;
    expired := expired r; promises := promises r; console := console r;
    closures := closures r; calls := calls r |}).
Definition set_expired (v : gset nat) : World → World :=
  upd_rt (λ r, {| sockets := sockets r; outbox := outbox r;
    timeouts := timeouts r; expired := v; promises := promises r;
    console := console r; closures := closures r; calls := calls r |}).
Definition set_promises (v : list PromiseState) : World → World :=
  upd_rt (λ r, {| sockets := sockets r; outbox := outbox r;
    timeouts := timeouts r; expired := expired r; promises := v;
    console := console r; closures := closures r; calls := calls r |}).
Definition set_console (v : list LogEntry) : World → World :=
  upd_rt (λ r, {| sockets := sockets r; outbox := outbox r;
    timeouts := timeouts r; expired := expired r; promises := promises r;
    console := v; closures := closures r; calls := calls r |}).
Definition set_closures (v : nat) : World → World :=
  upd_rt (λ r, {| sockets := sockets r; outbox := outbox r;
    timeouts := timeouts r; expired := expired r; promises := promises r;
    console := console r; closures := v; calls := calls r |}).
Definition set_calls (v : list Call) : World → World :=
  upd_rt (λ r, {| sockets := sockets r; outbox := outbox r;
    timeouts := timeouts r; expired := expired r; promises := promises r;
    console := console r; closures := closures r; calls := v |}).

Definition set_hk_connected (v : bool) : World → World :=
  upd_hook (λ h, {| hk_connected := v; hk_messages := hk_messages h;
    hk_executionUpdates := hk_executionUpdates h |}).
Definition set_hk_messages (v : list WebSocketMessage) : World → World :=
  upd_hook (λ h, {| hk_connected := hk_connected h; hk_messages := v;
    hk_executionUpdates := hk_executionUpdates h |}).
Definition set_hk_executionUpdates (v : gmap string (list (option Data)))
    : World → World :=
  upd_hook (λ h, {| hk_connected := hk_connected h;
    hk_messages := hk_messages h; hk_executionUpdates := v |}).

(** ** Computations that may throw *)

Inductive Completion (A : Type) :=
| Ok (a : A) (w : World)
| Exn (e : Exception) (w : World).
Arguments Ok {A} a w.
Arguments Exn {A} e w.

Definition M (A : Type) : Type := World → Completion A.

Definition ret {A} (a : A) : M A := λ w, Ok a w.
Definition throw {A} (e : Exception) : M A := λ w, Exn e w.
Definition bind {A B} (c : M A) (k : A → M B) : M B :=
  λ w, match c w with
       | Ok a w' => k a w'
       | Exn e w' => Exn e w'
       end.
Definition lift (f : World → World) : M unit := λ w, Ok tt (f w).

Notation "c ;; k" := (bind c (λ _, k))
  (at level 100, k at level 200, right associativity).

Definition world_of {A} (r : Completion A) : World :=
  match r with Ok _ w | Exn _ w => w end.
Definition threw {A} (r : Completion A) : bool :=
  match r with Ok _ _ => false | Exn _ _ => true end.

(** ** Browser primitives *)

Definition console_put (entry : LogEntry) (w : World) : World :=
  set_console (console (rt w) ++ [entry]) w.

(** [WebSocket.send]: throws while the socket is still connecting, transmits
    when it is open, and drops the data once it is closing or closed. *)
Definition WebSocket_send (sid : nat) (frame : Frame) : M unit := λ w,
  match sockets (rt w) !! sid with
  | Some s =>
      match readyState s with
      | CONNECTING => Exn InvalidStateError w
      | OPEN => Ok tt (set_outbox (outbox (rt w) ++ [(sid, frame)]) w)
      | CLOSING | CLOSED => Ok tt w
      end
  | None => Exn TypeError w
  end.

(** [WebSocket.close(code, reason)]: nothing on a closing or closed socket,
    otherwise the socket starts closing. *)
Definition WebSocket_close (sid : nat) (code : Z) (reason : string)
    (w : World) : World :=
  match sockets (rt w) !! sid with
  | Some s =>
      match readyState s with
      | CLOSING | CLOSED => w
      | CONNECTING | OPEN =>
          set_sockets (<[sid := {| readyState := CLOSING;
                                   closeCall := Some (code, reason);
                                   settled := settled s;
                                   awaiting := awaiting s |}]> (sockets (rt w))) w
      end
  | None => w
  end.

Definition WebSocket_new (k : Continuation) (w : World) : nat * World :=
  (length (sockets (rt w)),
   set_sockets (sockets (rt w) ++ [{| readyState := CONNECTING;
                                      closeCall := None;
                                      settled := false;
                                      awaiting := k |}]) w).

Definition set_readyState (sid : nat) (st : ReadyState) (w : World) : World :=
  match sockets (rt w) !! sid with
  | Some s =>
      set_sockets (<[sid := {| readyState := st; closeCall := closeCall s;
                               settled := settled s;
                               awaiting := awaiting s |}]> (sockets (rt w))) w
  | None => w
  end.

Definition setTimeout (action : TimerAction) (delay : Z) (w : World)
    : nat * World :=
  (length (timeouts (rt w)),
   set_timeouts (timeouts (rt w) ++ [(delay, action)]) w).

Definition clearTimeout (tid : nat) (w : World) : World :=
  set_expired ({[tid]} ∪ expired (rt w)) w.

Definition new_promise (w : World) : nat * World :=
  (length (promises (rt w)), set_promises (promises (rt w) ++ [Pending]) w).

(** [resolve] and [reject] of a promise: only the first call counts. *)
Definition settle (pid : nat) (st : PromiseState) (w : World) : World :=
  match promises (rt w) !! pid with
  | Some Pending => set_promises (<[pid := st]> (promises (rt w))) w
  | _ => w
  end.

Definition new_closure (w : World) : nat * World :=
  (closures (rt w), set_closures (S (closures (rt w))) w).

(** ** hooks/useWebSocket.ts: the handlers and queries of the hook *)

Module UseWebSocket.

(** [if (message.execution_id)]: present and not the empty string. *)
Definition truthy (s : option string) : bool :=
  match s with
  | Some id => negb (bool_decide (id = EmptyString))
  | None => false
  end.

Definition handleConnect (h : HookState) : HookState :=
  {| hk_connected := true; hk_messages := hk_messages h;
     hk_executionUpdates := hk_executionUpdates h |}.

Definition handleDisconnect (h : HookState) : HookState :=
  {| hk_connected := false; hk_messages := hk_messages h;
     hk_executionUpdates := hk_executionUpdates h |}.

Definition handleMessage (message : WebSocketMessage) (h : HookState)
    : HookState :=
  {| hk_connected := hk_connected h;
     hk_messages := hk_messages h ++ [message];
     hk_executionUpdates := hk_executionUpdates h |}.

Definition handleExecutionUpdate (message : WebSocketMessage)
    (h : HookState) : HookState :=
  if truthy (execution_id message) then
    match execution_id message with
    | Some id =>
        let prev := hk_executionUpdates h in
        {| hk_connected := hk_connected h;
           hk_messages := hk_messages h;
           hk_executionUpdates :=
             <[id := default [] (prev !! id) ++ [data message]]> prev |}
    | None => h
    end
  else h.



Definition clearMessages (h : HookState) : HookState :=
  {| hk_connected := hk_connected h; hk_messages := [];
     hk_executionUpdates := hk_executionUpdates h |}.

End UseWebSocket.

(** ** services/websocket.ts: the methods of [WebSocketClient] *)

Definition isConnected (w : World) : bool :=
  connected (client w) &&
  match ws (client w) with
  | Some sid =>
      match sockets (rt w) !! sid with
      | Some s => bool_decide (readyState s = OPEN)
      | None => false
      end
  | None => false
  end.

Definition handlers_of (event : string) (w : World) : list Handler :=
  default [] (eventHandlers (client w) !! event).

Definition on (event : string) (handler : Handler) (w : World) : World :=
  match eventHandlers (client w) !! event with
  | Some handlers =>
      set_eventHandlers
        (<[event := handlers ++ [handler]]> (eventHandlers (client w))) w
  | None =>
      set_eventHandlers (<[event := [handler]]> (eventHandlers (client w))) w
  end.

(** [handlers.indexOf(handler)] compares references. *)
Definition indexOf (handlers : list Handler) (handler : nat) : option nat :=
  fst <$> list_find (λ h, hid h = handler) handlers.

Definition off (event : string) (handler : nat) (w : World) : World :=
  match eventHandlers (client w) !! event with
  | Some handlers =>
      match indexOf handlers handler with
      | Some index =>
          set_eventHandlers
            (<[event := delete index handlers]> (eventHandlers (client w))) w
      | None => w
      end
  | None => w
  end.

Definition sendMessage (message : Frame) : M unit := λ w,
  if isConnected w then
    match ws (client w) with
    | Some sid => WebSocket_send sid message w
    | None => Exn TypeError w
    end
  else Ok tt (console_put WarnNotConnected w).

Definition subscribe (executionId : string) : M unit :=
  sendMessage {| f_type := "subscribe"; f_execution_id := Some executionId |} ;;
  lift (λ w, set_subscriptions ({[executionId]} ∪ subscriptions (client w)) w).

Definition unsubscribe (executionId : string) : M unit :=
  sendMessage {| f_type := "unsubscribe"; f_execution_id := Some executionId |} ;;
  lift (λ w, set_subscriptions (subscriptions (client w) ∖ {[executionId]}) w).

Definition cancelExecution (executionId : string) : M unit :=
  sendMessage {| f_type := "cancel_execution";
                 f_execution_id := Some executionId |}.

Definition ping : M unit :=
  sendMessage {| f_type := "ping"; f_execution_id := None |}.

Definition getStatus : M unit :=
  sendMessage {| f_type := "get_status"; f_execution_id := None |}.

Definition getSubscriptions (w : World) : list string :=
  elements (subscriptions (client w)).

Definition getClientId (w : World) : string := clientId (client w).

(** What a registered closure does when [emit] calls it. *)
Definition invoke (h : Handler) (message : WebSocketMessage) : M unit :=
  match behaviour h with
  | BhHookConnect => lift (upd_hook UseWebSocket.handleConnect)
  | BhHookDisconnect => lift (upd_hook UseWebSocket.handleDisconnect)
  | BhHookMessage => lift (upd_hook (UseWebSocket.handleMessage message))
  | BhHookExecutionUpdate =>
      lift (upd_hook (UseWebSocket.handleExecutionUpdate message))
  | BhHookError => lift (console_put (ErrHook (error message)))
  | BhWaitMessage type timeoutId promise =>
      lift (λ w, settle promise (Resolved message)
                   (off type (hid h) (clearTimeout timeoutId w)))
  | BhWaitCompletion executionId timeoutId promise =>
      if bool_decide (execution_id message = Some executionId) then
        match data message with
        | None => throw TypeError
        | Some update =>
            if bool_decide (data_type update = Some "completion") then
              lift (λ w, settle promise (Resolved message)
                           (off "execution_update" (hid h)
                              (clearTimeout timeoutId w)))
            else ret tt
        end
      else ret tt
  | BhExternal throws =>
      if throws message then throw HandlerError else ret tt
  end.

(** The body of the [forEach] callback in [emit]: call, and on an exception
    log it and go on. *)
Definition call_handler (event : string) (h : Handler)
    (message : WebSocketMessage) (w : World) : World :=
  match invoke h message w with
  | Ok _ w' =>
      set_calls (calls (rt w') ++ [{| call_event := event; call_hid := hid h;
                                      call_message := message;
                                      call_threw := false |}]) w'
  | Exn e w' =>
      console_put (ErrInHandler e)
        (set_calls (calls (rt w') ++ [{| call_event := event;
                                         call_hid := hid h;
                                         call_message := message;
                                         call_threw := true |}]) w')
  end.

(** [Array.prototype.forEach]: the length is read once, the elements are read
    from the array as it is when their index comes up, and an index that is no
    longer there is passed over.  [k] is the index and [n] the number of
    indices still to visit. *)
Fixpoint forEach (event : string) (message : WebSocketMessage)
    (k n : nat) (w : World) : World :=
  match n with
  | 0 => w
  | S n' =>
      match handlers_of event w !! k with
      | Some h => forEach event message (S k) n' (call_handler event h message w)
      | None => forEach event message (S k) n' w
      end
  end.

Definition emit (event : string) (message : WebSocketMessage) (w : World)
    : World :=
  match eventHandlers (client w) !! event with
  | Some handlers => forEach event message 0 (length handlers) w
  | None => w
  end.

Definition handleMessage (message : WebSocketMessage) (w : World) : World :=
  emit "message" message (emit (msg_type message) message w).

(** [connect]: a new socket becomes [this.ws]; the promise is settled by the
    socket's [onopen] or [onerror]. *)
Definition connect (k : Continuation) (w : World) : World :=
  let '(sid, w1) := WebSocket_new k w in
  set_ws (Some sid) w1.

Definition attemptReconnect (w : World) : World :=
  let w1 := set_reconnectAttempts (S (reconnectAttempts (client w))) w in
  let delay :=
    (reconnectDelay * 2 ^ (Z.of_nat (reconnectAttempts (client w1)) - 1))%Z in
  let w2 := console_put (LogReconnecting (reconnectAttempts (client w1))
                           maxReconnectAttempts delay) w1 in
  snd (setTimeout TReconnect delay w2).

(** The loop of the timer callback of [attemptReconnect] after
    [await this.connect()]; a rejected [subscribe] leaves the loop. *)
Fixpoint resubscribe_loop (ids : list string) : M unit :=
  match ids with
  | [] => ret tt
  | executionId :: rest => subscribe executionId ;; resubscribe_loop rest
  end.

Definition resubscribe (w : World) : World :=
  match resubscribe_loop (elements (subscriptions (client w))) w with
  | Ok _ w' => w'
  | Exn _ w' => console_put ErrReconnectFailed w'
  end.

(** [resolve()] and [reject(error)] of the promise of [connect], with what
    the awaiting code does next. *)
Definition resolve_connect (sid : nat) (w : World) : World :=
  match sockets (rt w) !! sid with
  | Some s =>
      if settled s then w
      else
        let w1 := set_sockets (<[sid := {| readyState := readyState s;
                                          closeCall := closeCall s;
                                          settled := true;
                                          awaiting := awaiting s |}]>
                                 (sockets (rt w))) w in
        match awaiting s with
        | KReconnect => resubscribe w1
        | KHook | KCaller => w1
        end
  | None => w
  end.

Definition reject_connect (sid : nat) (w : World) : World :=
  match sockets (rt w) !! sid with
  | Some s =>
      if settled s then w
      else
        let w1 := set_sockets (<[sid := {| readyState := readyState s;
                                          closeCall := closeCall s;
                                          settled := true;
                                          awaiting := awaiting s |}]>
                                 (sockets (rt w))) w in
        match awaiting s with
        | KReconnect => console_put ErrReconnectFailed w1
        | KHook => console_put ErrConnectRejected w1
        | KCaller => w1
        end
  | None => w
  end.

Definition onopen (sid : nat) (w : World) : World :=
  let w1 := console_put LogConnected w in
  let w2 := set_connected true w1 in
  let w3 := set_reconnectAttempts 0 w2 in
  let w4 := emit "connected"
              {| msg_type := "connected"; execution_id := None;
                 data := Some (DClientId (clientId (client w3)));
                 timestamp := None; error := None |} w3 in
  resolve_connect sid w4.

Definition onclose (code : Z) (reason : string) (w : World) : World :=
  let w1 := console_put (LogDisconnected code reason) w in
  let w2 := set_connected false w1 in
  let w3 := emit "disconnected"
              {| msg_type := "disconnected"; execution_id := None;
                 data := Some (DClose code reason);
                 timestamp := None; error := None |} w2 in
  if negb (bool_decide (code = 1000%Z)) &&
     bool_decide (reconnectAttempts (client w3) < maxReconnectAttempts)
  then attemptReconnect w3
  else w3.

Definition onerror (sid : nat) (w : World) : World :=
  let w1 := console_put ErrSocket w in
  let w2 := emit "error"
              {| msg_type := "error"; execution_id := None; data := None;
                 timestamp := None;
                 error := Some "WebSocket connection error" |} w1 in
  reject_connect sid w2.

Definition disconnect (w : World) : World :=
  match ws (client w) with
  | Some sid =>
      let w1 := WebSocket_close sid 1000 "Client disconnect" w in
      let w2 := set_ws None w1 in
      let w3 := set_connected false w2 in
      set_subscriptions ∅ w3
  | None => w
  end.

Definition waitForMessage (type : string) (timeout : option Z) (w : World)
    : nat * World :=
  let '(promise, w1) := new_promise w in
  let '(handler, w2) := new_closure w1 in
  let '(timeoutId, w3) :=
    setTimeout (TWaitMessage type handler promise) (default 5000%Z timeout) w2 in
  (promise,
   on type {| hid := handler;
              behaviour := BhWaitMessage type timeoutId promise |} w3).

Definition waitForCompletion (executionId : string) (timeout : option Z)
    (w : World) : nat * World :=
  let '(promise, w1) := new_promise w in
  let '(handler, w2) := new_closure w1 in
  let '(timeoutId, w3) :=
    setTimeout (TWaitCompletion executionId handler promise)
      (default 30000%Z timeout) w2 in
  (promise,
   on "execution_update"
     {| hid := handler;
        behaviour := BhWaitCompletion executionId timeoutId promise |} w3).

(** The callbacks handed to [setTimeout]. *)
Definition run_timer (action : TimerAction) (w : World) : World :=
  match action with
  | TReconnect => connect KReconnect w
  | TWaitMessage type handler promise =>
      settle promise (Rejected ("Timeout waiting for " +:+ type +:+ " message"))
        (off type handler w)
  | TWaitCompletion executionId handler promise =>
      settle promise
        (Rejected ("Timeout waiting for execution " +:+ executionId
                   +:+ " completion"))
        (off "execution_update" handler w)
  end.

Definition fire_timer (tid : nat) (w : World) : World :=
  match timeouts (rt w) !! tid with
  | Some (_, action) =>
      if bool_decide (tid ∈ expired (rt w)) then w
      else run_timer action (set_expired ({[tid]} ∪ expired (rt w)) w)
  | None => w
  end.

(** [new WebSocketClient(url, clientId)]; [generated] is what
    [generateClientId] returns. *)
Definition new_client (url' : option string) (clientId' : option string)
    (generated : string) : Client :=
  {| url := default "ws://localhost:8000/api/ws" url';
     clientId := if UseWebSocket.truthy clientId'
                 then default generated clientId' else generated;
     ws := None;
     connected := false;
     reconnectAttempts := 0;
     eventHandlers := ∅;
     subscriptions := ∅ |}.

(** The page right after [export const wsClient = new WebSocketClient()]. *)
Definition initial (generated : string) : World :=
  {| client := new_client None None generated;
     rt := {| sockets := []; outbox := []; timeouts := []; expired := ∅;
              promises := []; console := []; closures := 0; calls := [] |};
     hook := {| hk_connected := false; hk_messages := [];
                hk_executionUpdates := ∅ |} |}.

(** ** The effect of [useWebSocket] and its wrappers *)

(** The hook's closures get consecutive references, the first one [base]. *)
Definition hook_handlers (base : nat) : list (string * Handler) :=
  [ ("connected", {| hid := base; behaviour := BhHookConnect |});
    ("disconnected", {| hid := base + 1; behaviour := BhHookDisconnect |});
    ("message", {| hid := base + 2; behaviour := BhHookMessage |});
    ("execution_update",
       {| hid := base + 3; behaviour := BhHookExecutionUpdate |});
    ("error", {| hid := base + 4; behaviour := BhHookError |}) ].

Definition hook_mount (w : World) : nat * World :=
  let base := closures (rt w) in
  let w1 := set_closures (base + 5) w in
  let w2 := foldl (λ acc eh, on eh.1 eh.2 acc) w1 (hook_handlers base) in
  (base,
   if negb (isConnected w2) then connect KHook w2
   else set_hk_connected true w2).

Definition hook_unmount (base : nat) (w : World) : World :=
  foldl (λ acc eh, off eh.1 (hid eh.2) acc) w (hook_handlers base).

Definition hook_subscribe (executionId : string) : M unit := λ w,
  if hk_connected (hook w) then subscribe executionId w else Ok tt w.

Definition hook_unsubscribe (executionId : string) : M unit := λ w,
  if hk_connected (hook w) then unsubscribe executionId w else Ok tt w.

Definition hook_cancelExecution (executionId : string) : M unit := λ w,
  if hk_connected (hook w) then cancelExecution executionId w else Ok tt w.

Definition hook_sendMessage (message : Frame) : M unit := λ w,
  if hk_connected (hook w) then sendMessage message w else Ok tt w.

Definition hook_ping : M unit := λ w,
  if hk_connected (hook w) then ping w else Ok tt w.

(** ** The event loop *)

Inductive Event :=
| EvOpen (sid : nat)
| EvMessage (sid : nat) (raw : string)
| EvClose (sid : nat) (code : Z) (reason : string)
| EvError (sid : nat)
| EvTimer (tid : nat)
| CallConnect
| CallDisconnect
| CallOn (event : string) (handler : Handler)
| CallOff (event : string) (handler : nat)
| CallSendMessage (message : Frame)
| CallSubscribe (executionId : string)
| CallUnsubscribe (executionId : string)
| CallCancelExecution (executionId : string)
| CallPing
| CallGetStatus
| CallWaitForMessage (type : string) (timeout : option Z)
| CallWaitForCompletion (executionId : string) (timeout : option Z)
| HookMount
| HookUnmount (base : nat)
| HookSubscribe (executionId : string)
| HookUnsubscribe (executionId : string)
| HookCancelExecution (executionId : string)
| HookSendMessage (message : Frame)
| HookPing
| HookClearMessages.

Section EventLoop.

(** [JSON.parse] followed by the cast to [WebSocketMessage]; [None] when
    it throws. *)
Variable JSON_parse : string → option WebSocketMessage.

Definition onmessage (raw : string) (w : World) : World :=
  match JSON_parse raw with
  | Some message => handleMessage message w
  | None => console_put (ErrParsing raw) w
  end.

(** One task of the event loop.  A socket event first moves the socket to
    the state the browser gives it, then runs the callback that [connect]
    installed. *)
Definition step (ev : Event) (w : World) : World :=
  match ev with
  | EvOpen sid => onopen sid (set_readyState sid OPEN w)
  | EvMessage sid raw => onmessage raw w
  | EvClose sid code reason =>
      onclose code reason (set_readyState sid CLOSED w)
  | EvError sid => onerror sid w
  | EvTimer tid => fire_timer tid w
  | CallConnect => connect KCaller w
  | CallDisconnect => disconnect w
  | CallOn event handler => on event handler w
  | CallOff event handler => off event handler w
  | CallSendMessage message => world_of (sendMessage message w)
  | CallSubscribe executionId => world_of (subscribe executionId w)
  | CallUnsubscribe executionId => world_of (unsubscribe executionId w)
  | CallCancelExecution executionId =>
      world_of (cancelExecution executionId w)
  | CallPing => world_of (ping w)
  | CallGetStatus => world_of (getStatus w)
  | CallWaitForMessage type timeout => snd (waitForMessage type timeout w)
  | CallWaitForCompletion executionId timeout =>
      snd (waitForCompletion executionId timeout w)
  | HookMount => snd (hook_mount w)
  | HookUnmount base => hook_unmount base w
  | HookSubscribe executionId => world_of (hook_subscribe executionId w)
  | HookUnsubscribe executionId => world_of (hook_unsubscribe executionId w)
  | HookCancelExecution executionId =>
      world_of (hook_cancelExecution executionId w)
  | HookSendMessage message => world_of (hook_sendMessage message w)
  | HookPing => world_of (hook_ping w)
  | HookClearMessages => upd_hook UseWebSocket.clearMessages w
  end.

Definition run (evs : list Event) (w : World) : World :=
  foldl (λ acc ev, step ev acc) w evs.

End EventLoop.

(** A parser given by its graph on the frames of a scenario; every other text
    is malformed. *)
Definition parse_table (frames : list (string * WebSocketMessage))
    (raw : string) : option WebSocketMessage :=
  snd <$> (snd <$> list_find (λ p, p.1 = raw) frames).

(** ** Observations used in the statements *)

Definition is_reconnect (t : Z * TimerAction) : bool :=
  match t.2 with TReconnect => true | _ => false end.

(** The delays of the reconnect timers scheduled between two worlds. *)
Definition reconnect_delays (before after : World) : list Z :=
  fst <$> filter (λ t, is_reconnect t = true)
            (drop (length (timeouts (rt before))) (timeouts (rt after))).

Definition unexpected_close (ev : Event) : bool :=
  match ev with
  | EvClose _ code _ => negb (bool_decide (code = 1000%Z))
  | _ => false
  end.

Definition is_open (ev : Event) : bool :=
  match ev with EvOpen _ => true | _ => false end.

(** A handler that stays in the array when called with [message]. *)
Definition stays (message : WebSocketMessage) (h : Handler) : bool :=
  match behaviour h with
  | BhWaitMessage _ _ _ => false
  | BhWaitCompletion executionId _ _ =>
      negb (bool_decide (execution_id message = Some executionId) &&
            match data message with
            | Some update => bool_decide (data_type update = Some "completion")
            | None => false
            end)
  | _ => true
  end.

(** A handler whose call with [message] ends in an exception. *)
Definition throws_on (message : WebSocketMessage) (h : Handler) : bool :=
  match behaviour h with
  | BhWaitCompletion executionId _ _ =>
      bool_decide (execution_id message = Some executionId) &&
      match data message with None => true | Some _ => false end
  | BhExternal throws => throws message
  | _ => false
  end.

Definition is_handler_error (entry : LogEntry) : bool :=
  match entry with ErrInHandler _ => true | _ => false end.

(** ** Relations between worlds, and the scenarios of the examples *)

(** The number of unexpected closes among the tasks. *)
Definition closes (evs : list Event) : nat :=
  length (filter (λ ev, unexpected_close ev = true) evs).

Definition same_transport (w w' : World) : Prop :=
  ws (client w') = ws (client w) ∧
  connected (client w') = connected (client w) ∧
  reconnectAttempts (client w') = reconnectAttempts (client w) ∧
  subscriptions (client w') = subscriptions (client w) ∧
  clientId (client w') = clientId (client w) ∧
  sockets (rt w') = sockets (rt w) ∧
  outbox (rt w') = outbox (rt w) ∧
  timeouts (rt w') = timeouts (rt w).

Definition delays_of (ts : list (Z * TimerAction)) : list Z :=
  fst <$> filter (λ t, is_reconnect t = true) ts.

(** A step that neither counts an attempt nor schedules a reconnect. *)
Definition quiet (w w' : World) : Prop :=
  reconnectAttempts (client w') = reconnectAttempts (client w) ∧
  ∃ extra, timeouts (rt w') = timeouts (rt w) ++ extra ∧ delays_of extra = [].

(** The delay of attempt number [k]. *)
Definition backoff_delay (k : nat) : Z :=
  (reconnectDelay * 2 ^ (Z.of_nat k - 1))%Z.

(** The delays still to come after [attempts] attempts when [n] more
    unexpected closes arrive. *)
Definition backoff (attempts n : nat) : list Z :=
  backoff_delay <$> seq (S attempts) (n `min` (maxReconnectAttempts - attempts)).

(** Six failed connections in a row: the page connects, and each socket ends
    in an error and a close with code 1006; every reconnect timer fires. *)
Definition six_drops : list Event :=
  [ CallConnect; EvError 0; EvClose 0 1006 EmptyString;
    EvTimer 0; EvError 1; EvClose 1 1006 EmptyString;
    EvTimer 1; EvError 2; EvClose 2 1006 EmptyString;
    EvTimer 2; EvError 3; EvClose 3 1006 EmptyString;
    EvTimer 3; EvError 4; EvClose 4 1006 EmptyString;
    EvTimer 4; EvError 5; EvClose 5 1006 EmptyString ].

(** The page is connected and has subscribed to jobs A and B. *)
Definition subscribed_AB : World :=
  run (parse_table [])
    [CallConnect; EvOpen 0; CallSubscribe "A"; CallSubscribe "B"]
    (initial "client-1").

(** Job A subscribed before any connection was made. *)
Definition subscribed_offline : World :=
  run (parse_table []) [CallSubscribe "A"] (initial "client-1").

(** The socket of the first [connect] is still connecting. *)
Definition connecting : World :=
  run (parse_table []) [CallConnect] (initial "client-1").

(** The hook is mounted, which registers its [error] handler and connects,
    and the socket has opened. *)
Definition listening : World :=
  run (parse_table []) [HookMount; EvOpen 0] (initial "client-1").


Definition update_for (J : string) (U : option Data) : WebSocketMessage :=
  {| msg_type := "execution_update"; execution_id := Some J; data := U;
     timestamp := None; error := None |}.


Definition errors_logged (w : World) : nat :=
  length (filter (λ e, is_handler_error e = true) (console (rt w))).

Definition throwing_calls (t : list Call) : nat :=
  length (filter (λ c, call_threw c = true) t).

(** Two handlers for [message], the first of which throws. *)
Definition two_listeners : World :=
  run (parse_table [])
    [ CallConnect; EvOpen 0;
      CallOn "message" {| hid := 100; behaviour := BhExternal (λ _, true) |};
      CallOn "message" {| hid := 101; behaviour := BhExternal (λ _, false) |} ]
    (initial "client-1").

Definition status_message : WebSocketMessage :=
  {| msg_type := "status"; execution_id := None; data := None;
     timestamp := None; error := None |}.

Definition subscribe_frame (executionId : string) : Frame :=
  {| f_type := "subscribe"; f_execution_id := Some executionId |}.

(** Jobs A and B subscribed, the connection dropped, the first reconnect
    timer fired: socket 1 is the reconnect attempt, still connecting. *)
Definition reconnecting_AB : World :=
  run (parse_table []) [EvClose 0 1006 EmptyString; EvTimer 0] subscribed_AB.

Definition completion_of (J : string) : WebSocketMessage :=
  update_for J (Some (DUpdate {| eu_type := "completion"; eu_execution_id := J;
                                 eu_status := "completed"; eu_progress := 100;
                                 eu_current_agent := None;
                                 eu_current_task := None;
                                 eu_output := None; eu_error := None |})).

Definition wire : string → option WebSocketMessage :=
  parse_table [("completion of J", completion_of "J");
               ("completion of K", completion_of "K")].

(** Two callers wait for the completion of job J at the same time. *)
Definition two_waiters : World :=
  run wire
    [ CallConnect; EvOpen 0;
      CallWaitForCompletion "J" (Some 5000%Z);
      CallWaitForCompletion "J" (Some 5000%Z) ]
    (initial "client-1").

(** ** Further observations and scenarios *)

(** An array after [indexOf] and [splice(index, 1)]: without the first entry
    whose reference is [handler], when there is one. *)
Definition splice_out (handlers : list Handler) (handler : nat)
    : list Handler :=
  match indexOf handlers handler with
  | Some index => delete index handlers
  | None => handlers
  end.

(** A caller's handler that returns normally. *)
Definition listener (reference : nat) : Handler :=
  {| hid := reference; behaviour := BhExternal (λ _, false) |}.

(** The same handler registered twice for [message]. *)
Definition registered_twice : World :=
  run (parse_table [])
    [ CallOn "message" (listener 100); CallOn "message" (listener 101);
      CallOn "message" (listener 100) ]
    (initial "client-1").

(** What a handler that stays in its array leaves alone: the client object
    and all of the runtime but the console and the record of calls. *)
Definition same_bookkeeping (w w' : World) : Prop :=
  client w' = client w ∧
  sockets (rt w') = sockets (rt w) ∧
  outbox (rt w') = outbox (rt w) ∧
  timeouts (rt w') = timeouts (rt w) ∧
  expired (rt w') = expired (rt w) ∧
  promises (rt w') = promises (rt w) ∧
  closures (rt w') = closures (rt w).

(** The record [emit] keeps of calling [h]. *)
Definition call_of (event : string) (message : WebSocketMessage) (h : Handler)
    : Call :=
  {| call_event := event; call_hid := hid h; call_message := message;
     call_threw := throws_on message h |}.

(** What a one-shot handler does when it fires. *)
Definition fire_one_shot (event : string) (handler timeoutId promise : nat)
    (message : WebSocketMessage) (w : World) : World :=
  settle promise (Resolved message) (off event handler (clearTimeout timeoutId w)).

Definition unsubscribe_frame (executionId : string) : Frame :=
  {| f_type := "unsubscribe"; f_execution_id := Some executionId |}.

(** Two worlds with the same connection: the same current socket, flag and
    attempt counter, the same timers, and every socket in the same state. *)
Definition same_link (w w' : World) : Prop :=
  ws (client w') = ws (client w) ∧
  connected (client w') = connected (client w) ∧
  reconnectAttempts (client w') = reconnectAttempts (client w) ∧
  timeouts (rt w') = timeouts (rt w) ∧
  readyState <$> sockets (rt w') = readyState <$> sockets (rt w).

(** The endpoint and the client identifier are the same in both worlds. *)
Definition same_identity (w w' : World) : Prop :=
  url (client w') = url (client w) ∧ clientId (client w') = clientId (client w).

(** After six failed connections: the attempt counter stands at five. *)
Definition exhausted : World :=
  run (parse_table []) six_drops (initial "client-1").

(** The connection dropped and a reconnect is scheduled. *)
Definition dropped_AB : World :=
  run (parse_table []) [EvClose 0 1006 EmptyString] subscribed_AB.

(** The hook has just been mounted on a fresh page: socket 0 is still
    connecting. *)
Definition mounted : World :=
  run (parse_table []) [HookMount] (initial "client-1").

(** What calling [h] with [message] does to the React state of the hook:
    only the hook's own handlers touch it. *)
Definition hook_effect (message : WebSocketMessage) (h : Handler)
    : HookState → HookState :=
  match behaviour h with
  | BhHookConnect => UseWebSocket.handleConnect
  | BhHookDisconnect => UseWebSocket.handleDisconnect
  | BhHookMessage => UseWebSocket.handleMessage message
  | BhHookExecutionUpdate => UseWebSocket.handleExecutionUpdate message
  | _ => id
  end.


(** A frame whose [type] is the word [message] itself. *)
Definition message_message : WebSocketMessage :=
  {| msg_type := "message"; execution_id := None; data := None;
     timestamp := None; error := None |}.

(** * Properties *)

(** ** What a dispatch leaves alone

    No handler of the universe above touches the connection, the
    subscriptions, the sockets, the wire or the timers' history. *)

Lemma same_transport_refl w : same_transport w w.
Proof. by repeat split. Qed.

Lemma same_transport_trans w1 w2 w3 :
  same_transport w1 w2 → same_transport w2 w3 → same_transport w1 w3.
Proof.
  unfold same_transport. intros H12 H23.
  destruct_and!. repeat split; congruence.
Qed.

Ltac transport_steps :=
  repeat first
    [ progress simpl
    | case_match
    | case_bool_decide ];
  try (by repeat split).

Lemma off_transport event handler w : same_transport w (off event handler w).
Proof. unfold off. transport_steps. Qed.

Lemma settle_transport pid st w : same_transport w (settle pid st w).
Proof. unfold settle. transport_steps. Qed.

Lemma invoke_transport h message w :
  same_transport w (world_of (invoke h message w)).
Proof.
  unfold invoke, lift, ret, throw.
  destruct (behaviour h); simpl; try (by repeat split).
  - eapply same_transport_trans; [|apply settle_transport].
    eapply same_transport_trans; [|apply off_transport].
    by repeat split.
  - repeat case_match; simpl; try (by repeat split).
    eapply same_transport_trans; [|apply settle_transport].
    eapply same_transport_trans; [|apply off_transport].
    by repeat split.
  - case_match; by repeat split.
Qed.

Lemma call_handler_transport event h message w :
  same_transport w (call_handler event h message w).
Proof.
  unfold call_handler.
  pose proof (invoke_transport h message w) as Hi.
  destruct (invoke h message w) as [[] w'|e w']; simpl in Hi;
    (eapply same_transport_trans; [exact Hi|by repeat split]).
Qed.

Lemma forEach_transport event message n : ∀ k w,
  same_transport w (forEach event message k n w).
Proof.
  induction n as [|n IH]; intros k w; simpl.
  - apply same_transport_refl.
  - case_match.
    + eapply same_transport_trans; [apply call_handler_transport|apply IH].
    + apply IH.
Qed.

Lemma emit_transport event message w :
  same_transport w (emit event message w).
Proof.
  unfold emit. case_match.
  - apply forEach_transport.
  - apply same_transport_refl.
Qed.

(** ** Reconnect backoff *)

Lemma quiet_refl w : quiet w w.
Proof. split; [done|]. exists []. by rewrite app_nil_r. Qed.

Lemma delays_of_app ts1 ts2 : delays_of (ts1 ++ ts2) = delays_of ts1 ++ delays_of ts2.
Proof. unfold delays_of. by rewrite filter_app, fmap_app. Qed.

Lemma quiet_trans w1 w2 w3 : quiet w1 w2 → quiet w2 w3 → quiet w1 w3.
Proof.
  intros [Ha (e1 & He1 & Hd1)] [Hb (e2 & He2 & Hd2)].
  split; [congruence|]. exists (e1 ++ e2).
  rewrite He2, He1, <- app_assoc, delays_of_app, Hd1, Hd2. done.
Qed.

Lemma quiet_same w w' :
  reconnectAttempts (client w') = reconnectAttempts (client w) →
  timeouts (rt w') = timeouts (rt w) → quiet w w'.
Proof. intros Ha Ht. split; [done|]. exists []. by rewrite app_nil_r. Qed.

Lemma same_transport_quiet w w' : same_transport w w' → quiet w w'.
Proof. intros H. unfold same_transport in H. destruct_and!. by apply quiet_same. Qed.

Ltac quiet_steps :=
  apply quiet_same;
  repeat first [ progress simpl | case_match | case_bool_decide ];
  try done.

Lemma on_quiet event handler w : quiet w (on event handler w).
Proof. unfold on. quiet_steps. Qed.

Lemma off_quiet event handler w : quiet w (off event handler w).
Proof. apply same_transport_quiet, off_transport. Qed.

Lemma settle_quiet pid st w : quiet w (settle pid st w).
Proof. apply same_transport_quiet, settle_transport. Qed.

Lemma emit_quiet event message w : quiet w (emit event message w).
Proof. apply same_transport_quiet, emit_transport. Qed.

Lemma sendMessage_quiet message w : quiet w (world_of (sendMessage message w)).
Proof. unfold sendMessage, WebSocket_send. quiet_steps. Qed.

Lemma subscribe_quiet executionId w :
  quiet w (world_of (subscribe executionId w)).
Proof.
  unfold subscribe, bind, lift.
  pose proof (sendMessage_quiet
    {| f_type := "subscribe"; f_execution_id := Some executionId |} w) as Hs.
  destruct (sendMessage _ w) as [[] w'|e w']; simpl in *; [|done].
  eapply quiet_trans; [exact Hs|]. by apply quiet_same.
Qed.

Lemma unsubscribe_quiet executionId w :
  quiet w (world_of (unsubscribe executionId w)).
Proof.
  unfold unsubscribe, bind, lift.
  pose proof (sendMessage_quiet
    {| f_type := "unsubscribe"; f_execution_id := Some executionId |} w) as Hs.
  destruct (sendMessage _ w) as [[] w'|e w']; simpl in *; [|done].
  eapply quiet_trans; [exact Hs|]. by apply quiet_same.
Qed.

Lemma connect_quiet k w : quiet w (connect k w).
Proof. unfold connect, WebSocket_new. by apply quiet_same. Qed.

Lemma disconnect_quiet w : quiet w (disconnect w).
Proof. unfold disconnect, WebSocket_close. quiet_steps. Qed.

Lemma reject_connect_quiet sid w : quiet w (reject_connect sid w).
Proof. unfold reject_connect. quiet_steps. Qed.

Lemma waitForMessage_quiet type timeout w :
  quiet w (waitForMessage type timeout w).2.
Proof.
  unfold waitForMessage. simpl.
  eapply quiet_trans; [|apply on_quiet].
  split; [done|]. simpl. by eexists.
Qed.

Lemma waitForCompletion_quiet executionId timeout w :
  quiet w (waitForCompletion executionId timeout w).2.
Proof.
  unfold waitForCompletion. simpl.
  eapply quiet_trans; [|apply on_quiet].
  split; [done|]. simpl. by eexists.
Qed.

Lemma fire_timer_quiet tid w : quiet w (fire_timer tid w).
Proof.
  unfold fire_timer.
  destruct (timeouts (rt w) !! tid) as [[delay action]|]; [|apply quiet_refl].
  case_bool_decide; [apply quiet_refl|].
  apply (quiet_trans _ (set_expired ({[tid]} ∪ expired (rt w)) w));
    [by apply quiet_same|].
  destruct action; simpl.
  - apply connect_quiet.
  - eapply quiet_trans; [apply off_quiet|apply settle_quiet].
  - eapply quiet_trans; [apply off_quiet|apply settle_quiet].
Qed.

Lemma foldl_quiet {A} (f : World → A → World) (l : list A) :
  (∀ w a, quiet w (f w a)) → ∀ w, quiet w (foldl f w l).
Proof.
  intros Hf. induction l as [|a l IH]; intros w; simpl.
  - apply quiet_refl.
  - eapply quiet_trans; [apply Hf|apply IH].
Qed.

Lemma hook_mount_quiet w : quiet w (hook_mount w).2.
Proof.
  unfold hook_mount. cbn [snd].
  set (w2 := foldl _ _ _).
  assert (quiet w w2) as H2.
  { eapply quiet_trans; [|apply foldl_quiet; intros; apply on_quiet].
    by apply quiet_same. }
  case_match.
  - eapply quiet_trans; [exact H2|apply connect_quiet].
  - eapply quiet_trans; [exact H2|by apply quiet_same].
Qed.

Lemma hook_unmount_quiet base w : quiet w (hook_unmount base w).
Proof. unfold hook_unmount. apply foldl_quiet. intros. apply off_quiet. Qed.

Lemma set_readyState_quiet sid st w : quiet w (set_readyState sid st w).
Proof. unfold set_readyState. quiet_steps. Qed.

Section Backoff.

Variable JSON_parse : string → option WebSocketMessage.

Lemma onmessage_quiet raw w : quiet w (onmessage JSON_parse raw w).
Proof.
  unfold onmessage, handleMessage. case_match.
  - eapply quiet_trans; apply emit_quiet.
  - by apply quiet_same.
Qed.

Lemma onerror_quiet sid w : quiet w (onerror sid w).
Proof.
  unfold onerror.
  eapply quiet_trans; [|apply reject_connect_quiet].
  eapply quiet_trans; [|apply emit_quiet]. by apply quiet_same.
Qed.

(** Every task other than a close or an open is quiet. *)
Lemma step_quiet ev w :
  is_open ev = false → (∀ sid code reason, ev ≠ EvClose sid code reason) →
  quiet w (step JSON_parse ev w).
Proof.
  intros Hopen Hclose. destruct ev; simpl in *; try done.
  - apply onmessage_quiet.
  - by destruct (Hclose sid code reason).
  - apply onerror_quiet.
  - apply fire_timer_quiet.
  - apply connect_quiet.
  - apply disconnect_quiet.
  - apply on_quiet.
  - apply off_quiet.
  - apply sendMessage_quiet.
  - apply subscribe_quiet.
  - apply unsubscribe_quiet.
  - apply sendMessage_quiet.
  - apply sendMessage_quiet.
  - apply sendMessage_quiet.
  - apply waitForMessage_quiet.
  - apply waitForCompletion_quiet.
  - apply hook_mount_quiet.
  - apply hook_unmount_quiet.
  - unfold hook_subscribe. case_match; [apply subscribe_quiet|apply quiet_refl].
  - unfold hook_unsubscribe. case_match; [apply unsubscribe_quiet|apply quiet_refl].
  - unfold hook_cancelExecution. case_match; [apply sendMessage_quiet|apply quiet_refl].
  - unfold hook_sendMessage. case_match; [apply sendMessage_quiet|apply quiet_refl].
  - unfold hook_ping. case_match; [apply sendMessage_quiet|apply quiet_refl].
  - by apply quiet_same.
Qed.

End Backoff.

Lemma attemptReconnect_spec w :
  reconnectAttempts (client (attemptReconnect w))
    = S (reconnectAttempts (client w)) ∧
  timeouts (rt (attemptReconnect w))
    = timeouts (rt w)
      ++ [(backoff_delay (S (reconnectAttempts (client w))), TReconnect)].
Proof. done. Qed.

Lemma onclose_backoff code reason w :
  let w' := onclose code reason w in
  if negb (bool_decide (code = 1000%Z)) &&
     bool_decide (reconnectAttempts (client w) < maxReconnectAttempts)%nat
  then reconnectAttempts (client w') = S (reconnectAttempts (client w)) ∧
       timeouts (rt w')
         = timeouts (rt w)
           ++ [(backoff_delay (S (reconnectAttempts (client w))), TReconnect)]
  else quiet w w'.
Proof.
  unfold onclose.
  set (w2 := set_connected false (console_put (LogDisconnected code reason) w)).
  set (message := {| msg_type := "disconnected" |}).
  pose proof (emit_transport "disconnected" message w2) as He.
  unfold same_transport in He. destruct_and!.
  assert (reconnectAttempts (client (emit "disconnected" message w2))
          = reconnectAttempts (client w)) as Ha by (subst w2; simpl in *; congruence).
  assert (timeouts (rt (emit "disconnected" message w2)) = timeouts (rt w))
    as Ht by (subst w2; simpl in *; congruence).
  cbv zeta. rewrite Ha.
  destruct (negb (bool_decide (code = 1000%Z)) &&
            bool_decide (reconnectAttempts (client w) < maxReconnectAttempts)).
  - destruct (attemptReconnect_spec (emit "disconnected" message w2)) as [-> ->].
    by rewrite Ha, Ht.
  - by apply quiet_same.
Qed.

Lemma backoff_exhausted (attempts n : nat) :
  (maxReconnectAttempts ≤ attempts)%nat → backoff attempts n = [].
Proof.
  intros H. unfold backoff.
  replace (n `min` (maxReconnectAttempts - attempts)) with 0 by lia. done.
Qed.

Lemma backoff_next (attempts n : nat) :
  (attempts < maxReconnectAttempts)%nat →
  backoff attempts (S n) = backoff_delay (S attempts) :: backoff (S attempts) n.
Proof.
  intros H. unfold backoff.
  replace (S n `min` (maxReconnectAttempts - attempts))
    with (S (n `min` (maxReconnectAttempts - S attempts))) by lia.
  done.
Qed.

Section BackoffRun.

Variable JSON_parse : string → option WebSocketMessage.

Lemma run_backoff evs : ∀ w,
  Forall (λ ev, is_open ev = false) evs →
  ∃ extra,
    timeouts (rt (run JSON_parse evs w)) = timeouts (rt w) ++ extra ∧
    delays_of extra = backoff (reconnectAttempts (client w)) (closes evs).
Proof.
  induction evs as [|ev evs IH]; intros w Hevs.
  - exists []. split; [by rewrite app_nil_r|].
    unfold backoff, closes. done.
  - apply Forall_cons in Hevs as [Hev Hevs].
    change (run JSON_parse (ev :: evs) w)
      with (run JSON_parse evs (step JSON_parse ev w)).
    destruct (IH (step JSON_parse ev w) Hevs) as (extra & Ht & Hd).
    assert (quiet w (step JSON_parse ev w) →
            closes (ev :: evs) = closes evs ∨
            (maxReconnectAttempts ≤ reconnectAttempts (client w))%nat →
            ∃ extra0,
              timeouts (rt (run JSON_parse evs (step JSON_parse ev w)))
                = timeouts (rt w) ++ extra0 ∧
              delays_of extra0
                = backoff (reconnectAttempts (client w)) (closes (ev :: evs)))
      as Hquiet.
    { intros [Ha (e1 & He1 & Hd1)] Hc.
      exists (e1 ++ extra). rewrite Ht, He1, <- app_assoc. split; [done|].
      rewrite delays_of_app, Hd1, Hd, Ha. simpl.
      destruct Hc as [->|Hmax]; [done|].
      by rewrite !backoff_exhausted. }
    assert ((∃ sid code reason, ev = EvClose sid code reason) ∨
            ¬ (∃ sid code reason, ev = EvClose sid code reason))
      as [(sid & code & reason & ->)|Hnc]
      by (destruct ev; first [left; by eauto | right; by intros (? & ? & ? & ?)]).
    + pose proof (onclose_backoff code reason
                    (set_readyState sid CLOSED w)) as Hc.
      destruct (set_readyState_quiet sid CLOSED w) as [Ha0 (e0 & He0 & Hd0)].
      cbv zeta in Hc. rewrite Ha0 in Hc.
      change (step JSON_parse (EvClose sid code reason) w)
        with (onclose code reason (set_readyState sid CLOSED w)) in *.
      destruct (negb (bool_decide (code = 1000%Z))) eqn:Hcode; simpl in Hc.
      * case_bool_decide as Hlt.
        -- destruct Hc as [Ha1 Ht1].
           exists (e0 ++ [(backoff_delay (S (reconnectAttempts (client w))),
                           TReconnect)] ++ extra).
           rewrite Ht, Ht1, He0, <- !app_assoc. split; [done|].
           rewrite !delays_of_app, Hd0, Hd, Ha1. simpl.
           unfold closes.
           rewrite filter_cons_True by (simpl; exact Hcode). simpl.
           by rewrite backoff_next.
        -- apply Hquiet; [|right; lia].
           eapply quiet_trans; [|exact Hc]. apply set_readyState_quiet.
      * apply Hquiet.
        -- eapply quiet_trans; [|exact Hc]. apply set_readyState_quiet.
        -- left. unfold closes.
           by rewrite filter_cons_False by (simpl; rewrite Hcode; done).
    + apply Hquiet.
      * apply step_quiet; [done|]. intros sid code reason ->.
        apply Hnc. eauto.
      * left. unfold closes.
        rewrite filter_cons_False; [done|].
        destruct ev; simpl; try done. destruct Hnc. eauto.
Qed.

End BackoffRun.

Lemma backoff_table (n : nat) :
  (λ k : nat, (1000 * 2 ^ (Z.of_nat k - 1))%Z) <$> seq 1 (n `min` 5)
  = take n [1000; 2000; 4000; 8000; 16000]%Z.
Proof.
  do 5 (destruct n as [|n]; [by vm_compute|]).
  rewrite take_ge by (simpl; lia).
  replace (S (S (S (S (S n)))) `min` 5) with 5 by lia.
  by vm_compute.
Qed.

(** C1.  Starting with the attempt counter at zero, over any run of tasks in
    which no socket opens, the reconnect timers that get scheduled are, in
    order, those of attempts 1, 2, ... with delays [1000ms * 2^(k-1)], one per
    unexpected close, and at most five of them: 1s, 2s, 4s, 8s, 16s, and no
    sixth. *)
Theorem reconnect_backoff (JSON_parse : string → option WebSocketMessage)
    (w : World) (evs : list Event) :
  reconnectAttempts (client w) = 0 →
  Forall (λ ev, is_open ev = false) evs →
  reconnect_delays w (run JSON_parse evs w)
    = (λ k : nat, (1000 * 2 ^ (Z.of_nat k - 1))%Z) <$> seq 1 (closes evs `min` 5) ∧
  reconnect_delays w (run JSON_parse evs w)
    = take (closes evs) [1000; 2000; 4000; 8000; 16000]%Z.
Proof.
  intros Hzero Hevs.
  destruct (run_backoff JSON_parse evs w Hevs) as (extra & Ht & Hd).
  assert (reconnect_delays w (run JSON_parse evs w)
          = (λ k : nat, (1000 * 2 ^ (Z.of_nat k - 1))%Z)
              <$> seq 1 (closes evs `min` 5)) as Heq.
  { unfold reconnect_delays. rewrite Ht, drop_app_length.
    fold (delays_of extra). rewrite Hd, Hzero. unfold backoff.
    by rewrite Nat.sub_0_r. }
  split; [exact Heq|]. rewrite Heq. apply backoff_table.
Qed.

Lemma reconnect_backoff_six_drops :
  reconnectAttempts (client (initial "client-1")) = 0 ∧
  Forall (λ ev, is_open ev = false) six_drops ∧
  closes six_drops = 6 ∧
  reconnect_delays (initial "client-1")
    (run (parse_table []) six_drops (initial "client-1"))
  = [1000; 2000; 4000; 8000; 16000]%Z.
Proof.
  assert (Forall (λ ev, is_open ev = false) six_drops) as Hevs
    by (unfold six_drops; repeat constructor).
  split; [reflexivity|]. split; [exact Hevs|]. split; [reflexivity|].
  exact (proj2 (reconnect_backoff (parse_table []) (initial "client-1")
                  six_drops eq_refl Hevs)).
Defined.

(** ** Sending *)

Lemma sendMessage_cases (message : Frame) (w : World) :
  sendMessage message w
  = Ok tt (if isConnected w
           then set_outbox (outbox (rt w)
                            ++ [(default 0 (ws (client w)), message)]) w
           else console_put WarnNotConnected w).
Proof.
  unfold sendMessage, isConnected, WebSocket_send.
  destruct (connected (client w)); simpl; [|done].
  destruct (ws (client w)) as [sid|]; simpl; [|done].
  destruct (sockets (rt w) !! sid) as [s|]; simpl; [|done].
  case_bool_decide as Hs; [|done]. by rewrite Hs.
Qed.


(** ** Subscriptions *)

Lemma unsubscribe_cases (executionId : string) (w : World) :
  ∃ w1, sendMessage {| f_type := "unsubscribe";
                       f_execution_id := Some executionId |} w = Ok tt w1 ∧
        unsubscribe executionId w
        = Ok tt (set_subscriptions
                   (subscriptions (client w) ∖ {[executionId]}) w1) ∧
        client w1 = client w.
Proof.
  eexists. split; [apply sendMessage_cases|]. split.
  - unfold unsubscribe, bind, lift. rewrite sendMessage_cases.
    by destruct (isConnected w).
  - by destruct (isConnected w).
Qed.

(** C9.  Unsubscribing a job id that is not in the subscription set returns
    normally and leaves the set as it was. *)
Theorem unsubscribe_absent (X : string) (w : World) :
  X ∉ subscriptions (client w) →
  ∃ w', unsubscribe X w = Ok tt w' ∧
        subscriptions (client w') = subscriptions (client w).
Proof.
  intros HX. destruct (unsubscribe_cases X w) as (w1 & _ & -> & _).
  eexists. split; [done|]. simpl.
  by apply difference_disjoint_L, disjoint_singleton_r.
Qed.

Lemma unsubscribe_absent_X :
  ("X" ∉ subscriptions (client subscribed_AB)) ∧
  (∃ w', unsubscribe "X" subscribed_AB = Ok tt w' ∧
         subscriptions (client w') = subscriptions (client subscribed_AB)).
Proof.
  assert ("X" ∉ subscriptions (client subscribed_AB)) as HX
    by (apply (bool_decide_unpack _); vm_compute; exact I).
  split; [exact HX|]. exact (unsubscribe_absent "X" subscribed_AB HX).
Defined.

(** ** Disconnecting *)

(** C10.  With [this.ws] null, [disconnect] changes nothing: the subscription
    set and the [connected] flag are as before.  With a socket in [this.ws] it
    empties the set, lowers the flag and drops the socket. *)
Theorem disconnect_without_socket (w w' : World) (sid : nat) :
  ws (client w) = None →
  ws (client w') = Some sid →
  (disconnect w = w ∧
   subscriptions (client (disconnect w)) = subscriptions (client w) ∧
   connected (client (disconnect w)) = connected (client w)) ∧
  (subscriptions (client (disconnect w')) = ∅ ∧
   connected (client (disconnect w')) = false ∧
   ws (client (disconnect w')) = None).
Proof.
  intros Hnone Hsome. unfold disconnect. rewrite Hnone, Hsome. done.
Qed.

Lemma disconnect_without_socket_offline :
  ws (client subscribed_offline) = None ∧
  ws (client subscribed_AB) = Some 0 ∧
  subscriptions (client (disconnect subscribed_offline)) = {["A"]} ∧
  subscriptions (client subscribed_AB) = ({["A"]} ∪ {["B"]}) ∧
  subscriptions (client (disconnect subscribed_AB)) = ∅.
Proof.
  pose proof (disconnect_without_socket subscribed_offline subscribed_AB 0
                eq_refl eq_refl) as [(_ & Hs & _) (Hs' & _)].
  split; [reflexivity|]. split; [reflexivity|].
  split; [rewrite Hs; by vm_compute|].
  split; [by vm_compute|exact Hs'].
Defined.

(** C8, as stated, fails: [disconnect] on a connecting socket is followed by
    a close event with code 1006, and that event schedules a reconnect. *)
Lemma disconnect_then_abnormal_close_reconnects :
  ws (client connecting) = Some 0 ∧
  connected (client (disconnect connecting)) = false ∧
  ws (client (disconnect connecting)) = None ∧
  reconnect_delays (disconnect connecting)
    (step (parse_table []) (EvClose 0 1006 EmptyString) (disconnect connecting))
  = [1000%Z].
Proof. by vm_compute. Qed.

(** C8, amended.  [disconnect] on a socket that is open or connecting calls
    [close(1000, 'Client disconnect')] on it, empties the subscription set,
    lowers the [connected] flag and forgets the socket; a close event that
    carries code 1000 then schedules no reconnect. *)
Theorem disconnect_clean_close (JSON_parse : string → option WebSocketMessage)
    (w : World) (sid : nat) (s : Socket) (reason : string) :
  ws (client w) = Some sid →
  sockets (rt w) !! sid = Some s →
  readyState s = OPEN ∨ readyState s = CONNECTING →
  let w1 := disconnect w in
  closeCall <$> sockets (rt w1) !! sid = Some (Some (1000%Z, "Client disconnect")) ∧
  readyState <$> sockets (rt w1) !! sid = Some CLOSING ∧
  subscriptions (client w1) = ∅ ∧
  connected (client w1) = false ∧
  ws (client w1) = None ∧
  reconnect_delays w1 (step JSON_parse (EvClose sid 1000 reason) w1) = [].
Proof.
  intros Hws Hs Hst w1.
  assert (sid < length (sockets (rt w)))%nat as Hlt by by eapply lookup_lt_Some.
  assert (sockets (rt w1)
          = <[sid := {| readyState := CLOSING;
                        closeCall := Some (1000%Z, "Client disconnect");
                        settled := settled s; awaiting := awaiting s |}]>
              (sockets (rt w))) as Hsockets.
  { subst w1. unfold disconnect, WebSocket_close. rewrite Hws, Hs.
    by destruct Hst as [-> | ->]. }
  rewrite Hsockets, list_lookup_insert_eq by done.
  do 2 (split; [done|]).
  subst w1. unfold disconnect. rewrite Hws.
  do 3 (split; [done|]).
  set (w1 := set_subscriptions _ _).
  pose proof (onclose_backoff 1000 reason (set_readyState sid CLOSED w1)) as Hc.
  simpl in Hc. destruct Hc as [_ (e1 & He1 & Hd1)].
  destruct (set_readyState_quiet sid CLOSED w1) as [_ (e0 & He0 & Hd0)].
  unfold reconnect_delays. simpl. rewrite He1, He0, <- app_assoc, drop_app_length.
  fold (delays_of (e0 ++ e1)). by rewrite delays_of_app, Hd0, Hd1.
Qed.

Lemma disconnect_clean_close_AB :
  ws (client subscribed_AB) = Some 0 ∧
  readyState <$> sockets (rt subscribed_AB) !! 0 = Some OPEN ∧
  subscriptions (client subscribed_AB) = {["A"]} ∪ {["B"]} ∧
  subscriptions (client (disconnect subscribed_AB)) = ∅ ∧
  reconnect_delays (disconnect subscribed_AB)
    (step (parse_table []) (EvClose 0 1000 "Client disconnect")
       (disconnect subscribed_AB)) = [].
Proof.
  pose proof (disconnect_clean_close (parse_table []) subscribed_AB 0
                {| readyState := OPEN; closeCall := None; settled := true;
                   awaiting := KCaller |} "Client disconnect"
                eq_refl eq_refl (or_introl eq_refl)) as (_ & _ & Hs & _ & _ & Hd).
  split; [reflexivity|]. split; [reflexivity|].
  split; [by vm_compute|]. split; [exact Hs|exact Hd].
Defined.

(** ** Malformed frames *)

(** C4, as stated, fails: a frame that does not parse reaches no handler, the
    one registered for [error] included; the console gets one entry. *)
Lemma malformed_frame_no_error_event :
  parse_table [] "{oops" = None ∧
  isConnected listening = true ∧
  hid <$> handlers_of "error" listening = [4] ∧
  calls (rt (step (parse_table []) (EvMessage 0 "{oops") listening))
    = calls (rt listening) ∧
  console (rt (step (parse_table []) (EvMessage 0 "{oops") listening))
    = console (rt listening) ++ [ErrParsing "{oops"].
Proof. by vm_compute. Qed.

(** C4, amended.  A frame that fails to parse is caught and written to the
    console with [console.error]; no handler runs, nothing else changes, and
    the connection is as open as it was. *)
Theorem malformed_frame_logged (JSON_parse : string → option WebSocketMessage)
    (w : World) (sid : nat) (raw : string) :
  JSON_parse raw = None →
  let w' := step JSON_parse (EvMessage sid raw) w in
  console (rt w') = console (rt w) ++ [ErrParsing raw] ∧
  level (ErrParsing raw) = LevelError ∧
  calls (rt w') = calls (rt w) ∧
  client w' = client w ∧
  hook w' = hook w ∧
  sockets (rt w') = sockets (rt w) ∧
  outbox (rt w') = outbox (rt w) ∧
  promises (rt w') = promises (rt w) ∧
  timeouts (rt w') = timeouts (rt w) ∧
  isConnected w' = isConnected w.
Proof. intros Hparse. simpl. unfold onmessage. by rewrite Hparse. Qed.

Lemma malformed_frame_logged_listening :
  parse_table [] "{oops" = None ∧
  console (rt (step (parse_table []) (EvMessage 0 "{oops") listening))
    = console (rt listening) ++ [ErrParsing "{oops"] ∧
  isConnected (step (parse_table []) (EvMessage 0 "{oops") listening) = true.
Proof.
  pose proof (malformed_frame_logged (parse_table []) listening 0 "{oops"
                eq_refl) as (Hc & _ & _ & _ & _ & _ & _ & _ & _ & Hi).
  split; [reflexivity|]. split; [exact Hc|]. rewrite Hi. by vm_compute.
Defined.

(** ** The update history of the hook *)







(** ** Dispatch *)

Lemma throwing_calls_nil : throwing_calls [] = 0.
Proof. done. Qed.

Lemma throwing_calls_cons c t :
  throwing_calls (c :: t)
  = (if call_threw c then 1 else 0) + throwing_calls t.
Proof.
  unfold throwing_calls. destruct (call_threw c) eqn:Hc.
  - by rewrite filter_cons_True.
  - by rewrite filter_cons_False by congruence.
Qed.

Lemma drop_S_sublist {A} (l : list A) : ∀ j,
  drop (S j) l `sublist_of` drop j l.
Proof.
  induction l as [|a l IH]; intros j; [by destruct j|].
  destruct j as [|j]; simpl; [by apply sublist_cons|apply IH].
Qed.

Lemma drop_delete_sublist {A} (l : list A) : ∀ i j,
  drop j (delete i l) `sublist_of` drop j l.
Proof.
  induction l as [|a l IH]; intros i j.
  - by destruct i, j.
  - destruct i as [|i], j as [|j]; simpl.
    + by apply sublist_cons.
    + apply drop_S_sublist.
    + apply sublist_skip, sublist_delete.
    + apply IH.
Qed.

Lemma off_handlers event handler e w :
  handlers_of e (off event handler w) = handlers_of e w ∨
  ∃ i, handlers_of e (off event handler w) = delete i (handlers_of e w).
Proof.
  unfold off, handlers_of.
  destruct (eventHandlers (client w) !! event) as [handlers|] eqn:Hh; [|by left].
  destruct (indexOf handlers handler) as [index|]; [|by left].
  simpl. destruct (decide (event = e)) as [->|Hne].
  - right. exists index. by rewrite lookup_insert_eq, Hh.
  - left. by rewrite lookup_insert_ne.
Qed.

Lemma settle_handlers pid st e w :
  handlers_of e (settle pid st w) = handlers_of e w.
Proof. unfold settle. by repeat case_match. Qed.

Lemma invoke_handlers h message e w :
  handlers_of e (world_of (invoke h message w)) = handlers_of e w ∨
  ∃ i, handlers_of e (world_of (invoke h message w)) = delete i (handlers_of e w).
Proof.
  unfold invoke, lift, ret, throw.
  destruct (behaviour h); simpl; try (by left).
  - rewrite settle_handlers.
    exact (off_handlers type (hid h) e (clearTimeout timeoutId w)).
  - repeat case_match; simpl; try (by left).
    rewrite settle_handlers.
    exact (off_handlers "execution_update" (hid h) e (clearTimeout timeoutId w)).
  - case_match; by left.
Qed.

Lemma invoke_stays h message w :
  stays message h = true →
  eventHandlers (client (world_of (invoke h message w)))
  = eventHandlers (client w).
Proof.
  unfold stays, invoke, lift, ret, throw.
  destruct (behaviour h); simpl; try done.
  - intros Hs. case_bool_decide; simpl in *; [|done].
    destruct (data message) as [update|]; [|done].
    case_bool_decide; [done|done].
  - intros _. by case_match.
Qed.

Lemma invoke_threw h message w :
  threw (invoke h message w) = throws_on message h.
Proof.
  unfold throws_on, invoke, lift, ret, throw.
  destruct (behaviour h); simpl; try done.
  - case_bool_decide; simpl; [|done].
    destruct (data message); [|done]. by case_bool_decide.
  - by case_match.
Qed.


Lemma settle_observed pid st w :
  calls (rt (settle pid st w)) = calls (rt w) ∧
  errors_logged (settle pid st w) = errors_logged w.
Proof. unfold settle, errors_logged. by repeat case_match. Qed.

Lemma off_observed event handler w :
  calls (rt (off event handler w)) = calls (rt w) ∧
  errors_logged (off event handler w) = errors_logged w.
Proof. unfold off, errors_logged. by repeat case_match. Qed.

Lemma invoke_observed h message w :
  calls (rt (world_of (invoke h message w))) = calls (rt w) ∧
  errors_logged (world_of (invoke h message w)) = errors_logged w.
Proof.
  assert (∀ event w0 pid st tid,
            calls (rt (settle pid st (off event (hid h) (clearTimeout tid w0))))
              = calls (rt w0) ∧
            errors_logged (settle pid st (off event (hid h) (clearTimeout tid w0)))
              = errors_logged w0) as Hone.
  { intros. destruct (settle_observed pid st
                        (off event (hid h) (clearTimeout tid w0))) as [-> ->].
    by destruct (off_observed event (hid h) (clearTimeout tid w0)) as [-> ->]. }
  unfold invoke, lift, ret, throw.
  destruct (behaviour h); simpl; repeat case_match; simpl;
    first [ done | apply Hone | idtac ].
  unfold errors_logged, console_put. simpl.
  by rewrite filter_app, filter_cons_False, filter_nil, app_nil_r by done.
Qed.

(** One call: the array of the event stays or loses one element, the call is
    recorded, and an entry is logged exactly when the call threw. *)
Lemma call_handler_spec event h message w :
  let w' := call_handler event h message w in
  calls (rt w') = calls (rt w) ++ [{| call_event := event; call_hid := hid h;
                                      call_message := message;
                                      call_threw := throws_on message h |}] ∧
  errors_logged w'
    = errors_logged w + (if throws_on message h then 1 else 0) ∧
  (∀ e, handlers_of e w' = handlers_of e w ∨
        ∃ i, handlers_of e w' = delete i (handlers_of e w)) ∧
  (stays message h = true →
   eventHandlers (client w') = eventHandlers (client w)).
Proof.
  unfold call_handler.
  pose proof (invoke_threw h message w) as Ht.
  pose proof (invoke_observed h message w) as [Hc He].
  assert (∀ e, handlers_of e (world_of (invoke h message w)) = handlers_of e w ∨
               ∃ i, handlers_of e (world_of (invoke h message w))
                    = delete i (handlers_of e w)) as Hh
    by (intros e; apply invoke_handlers).
  pose proof (invoke_stays h message w) as Hs.
  unfold errors_logged in *.
  destruct (invoke h message w) as [[] w1|e w1]; simpl in *; rewrite <- Ht.
  - repeat split; [by rewrite Hc|lia|done|done].
  - repeat split; [by rewrite Hc| |done|done].
    rewrite filter_app, length_app, filter_cons_True by done. simpl. lia.
Qed.

Lemma forEach_spec event message n : ∀ k w,
  ∃ t,
    calls (rt (forEach event message k n w)) = calls (rt w) ++ t ∧
    Forall (λ c, call_event c = event ∧ call_message c = message) t ∧
    call_hid <$> t `sublist_of` hid <$> drop k (handlers_of event w) ∧
    errors_logged (forEach event message k n w)
      = errors_logged w + throwing_calls t ∧
    (Forall (λ h, stays message h = true) (drop k (handlers_of event w)) →
     k + n = length (handlers_of event w) →
     call_hid <$> t = hid <$> drop k (handlers_of event w)).
Proof.
  induction n as [|n IH]; intros k w; simpl.
  - exists []. rewrite app_nil_r. repeat split; try done.
    + apply sublist_nil_l.
    + intros _ Hk. by rewrite drop_ge by lia.
  - destruct (handlers_of event w !! k) as [h|] eqn:Hk.
    + destruct (call_handler_spec event h message w) as (Hc & He & Hh & Hs).
      cbv zeta in *. set (w1 := call_handler event h message w) in *.
      destruct (IH (S k) w1) as (t & Ht & Hall & Hsub & Herr & Hfull).
      exists ({| call_event := event; call_hid := hid h;
                 call_message := message;
                 call_threw := throws_on message h |} :: t).
      rewrite (drop_S _ _ _ Hk).
      repeat split.
      * rewrite Ht, Hc, <- app_assoc. done.
      * by constructor.
      * simpl. apply sublist_skip. etrans; [exact Hsub|].
        apply fmap_sublist.
        destruct (Hh event) as [->|[i ->]]; [done|apply drop_delete_sublist].
      * rewrite Herr, He, throwing_calls_cons. simpl. lia.
      * intros Hstay Hlen. apply Forall_cons in Hstay as [Hstay_h Hstay].
        assert (handlers_of event w1 = handlers_of event w) as Hsame
          by (unfold handlers_of; by rewrite Hs).
        rewrite !fmap_cons. f_equal.
        rewrite Hsame in Hfull. apply Hfull; [done|lia].
    + destruct (IH (S k) w) as (t & Ht & Hall & Hsub & Herr & Hfull).
      exists t. repeat split; try done.
      * etrans; [exact Hsub|]. apply fmap_sublist, drop_S_sublist.
      * intros _ Hlen. apply lookup_ge_None in Hk. lia.
Qed.

Lemma emit_spec event message w :
  ∃ t,
    calls (rt (emit event message w)) = calls (rt w) ++ t ∧
    Forall (λ c, call_event c = event ∧ call_message c = message) t ∧
    call_hid <$> t `sublist_of` hid <$> handlers_of event w ∧
    errors_logged (emit event message w)
      = errors_logged w + throwing_calls t ∧
    (Forall (λ h, stays message h = true) (handlers_of event w) →
     call_hid <$> t = hid <$> handlers_of event w).
Proof.
  unfold emit.
  destruct (eventHandlers (client w) !! event) as [handlers|] eqn:Hh.
  - destruct (forEach_spec event message (length handlers) 0 w)
      as (t & Ht & Hall & Hsub & Herr & Hfull).
    assert (handlers_of event w = handlers) as Hof
      by (unfold handlers_of; by rewrite Hh).
    rewrite drop_0 in *. exists t. repeat split; try done.
    intros Hstay. apply Hfull; [done|]. by rewrite Hof.
  - exists []. rewrite app_nil_r.
    assert (handlers_of event w = []) as ->
      by (unfold handlers_of; by rewrite Hh).
    by repeat split.
Qed.



(** ** Resubscription *)





(** ** Waiting for completion *)

(** A call of the one-shot handler with the completion of its job resolves the
    promise with that message, clears the timer and takes the handler out of
    the array. *)
Lemma waiter_resolves (h : Handler) (J : string) (tid pid : nat)
    (message : WebSocketMessage) (update : Data) (w : World) :
  behaviour h = BhWaitCompletion J tid pid →
  execution_id message = Some J →
  data message = Some update →
  data_type update = Some "completion" →
  promises (rt w) !! pid = Some Pending →
  ∃ w', invoke h message w = Ok tt w' ∧
        promises (rt w') !! pid = Some (Resolved message) ∧
        tid ∈ expired (rt w') ∧
        handlers_of "execution_update" w'
          = match indexOf (handlers_of "execution_update" w) (hid h) with
            | Some index => delete index (handlers_of "execution_update" w)
            | None => handlers_of "execution_update" w
            end.
Proof.
  intros Hb Hid Hdata Htype Hp. unfold invoke, lift. rewrite Hb, Hid, Hdata, Htype.
  rewrite !bool_decide_eq_true_2 by done.
  eexists. split; [done|].
  assert (promises (rt (off "execution_update" (hid h) (clearTimeout tid w)))
          = promises (rt w)) as Hpo by (unfold off; by repeat case_match).
  assert (pid < length (promises (rt w)))%nat as Hlt by by eapply lookup_lt_Some.
  unfold settle. rewrite Hpo, Hp. simpl. rewrite list_lookup_insert_eq by lia.
  split; [done|]. split.
  - unfold off. repeat case_match; simpl; set_solver.
  - unfold off, handlers_of. simpl.
    destruct (eventHandlers (client w) !! "execution_update") as [hs|] eqn:Hh;
      simpl; [|by rewrite Hh].
    destruct (indexOf hs (hid h)); simpl; [|by rewrite Hh].
    by rewrite lookup_insert_eq.
Qed.

(** A message for another job, or one that is not a completion, leaves the
    waiter as it is. *)
Lemma waiter_ignores (h : Handler) (J : string) (tid pid : nat)
    (message : WebSocketMessage) (w : World) :
  behaviour h = BhWaitCompletion J tid pid →
  execution_id message ≠ Some J →
  invoke h message w = Ok tt w.
Proof.
  intros Hb Hid. unfold invoke. rewrite Hb.
  by rewrite bool_decide_eq_false_2.
Qed.

(** The timer of a waiter that is still pending rejects the promise with the
    timeout error and takes the handler out of the array. *)
Lemma waiter_times_out (J : string) (tid handler pid : nat) (delay : Z)
    (w : World) :
  timeouts (rt w) !! tid = Some (delay, TWaitCompletion J handler pid) →
  tid ∉ expired (rt w) →
  promises (rt w) !! pid = Some Pending →
  let w' := fire_timer tid w in
  promises (rt w') !! pid
    = Some (Rejected ("Timeout waiting for execution " +:+ J +:+ " completion")) ∧
  handlers_of "execution_update" w'
    = match indexOf (handlers_of "execution_update" w) handler with
      | Some index => delete index (handlers_of "execution_update" w)
      | None => handlers_of "execution_update" w
      end.
Proof.
  intros Ht Hexp Hp. unfold fire_timer. rewrite Ht.
  rewrite bool_decide_eq_false_2 by done. simpl.
  set (w1 := set_expired _ w).
  assert (promises (rt (off "execution_update" handler w1)) = promises (rt w))
    as Hpo by (unfold off; by repeat case_match).
  assert (pid < length (promises (rt w)))%nat as Hlt by by eapply lookup_lt_Some.
  unfold settle. rewrite Hpo, Hp. simpl. rewrite list_lookup_insert_eq by lia.
  split; [done|].
  unfold off, handlers_of. simpl.
  destruct (eventHandlers (client w) !! "execution_update") as [hs|] eqn:Hh;
    simpl; [|by rewrite Hh].
  destruct (indexOf hs handler); simpl; [|by rewrite Hh].
  by rewrite lookup_insert_eq.
Qed.

(** C3 fails on the code.  With two waiters for J registered, the completion
    of J arrives before either deadline.  The first handler resolves its
    promise and splices itself out of the array [forEach] is walking; the
    second handler moves down to the index just visited and is never called.
    Its promise stays pending, its handler stays registered, and when its
    timer fires the promise is rejected with the timeout error. *)
Theorem second_waiter_is_passed_over :
  let w := step wire (EvMessage 0 "completion of J") two_waiters in
  promises (rt two_waiters) = [Pending; Pending] ∧
  hid <$> handlers_of "execution_update" two_waiters = [0; 1] ∧
  call_hid <$> drop (length (calls (rt two_waiters))) (calls (rt w)) = [0] ∧
  promises (rt w) = [Resolved (completion_of "J"); Pending] ∧
  hid <$> handlers_of "execution_update" w = [1] ∧
  elements (expired (rt w)) = [0] ∧
  promises (rt (step wire (EvTimer 1) w))
    = [Resolved (completion_of "J");
       Rejected "Timeout waiting for execution J completion"].
Proof. by vm_compute. Qed.

(** * Further properties of the client and the hook *)

(** ** The handler table *)

Lemma indexOf_absent (handlers : list Handler) (handler : nat) :
  handler ∉ hid <$> handlers → indexOf handlers handler = None.
Proof.
  intros Habs. unfold indexOf.
  destruct (list_find (λ h, hid h = handler) handlers) as [[i h]|] eqn:Hfind;
    [|done].
  apply list_find_Some in Hfind as (Hh & Hid & _).
  destruct Habs. rewrite <- Hid. apply list_elem_of_fmap. exists h.
  split; [done|]. by eapply list_elem_of_lookup_2.
Qed.

Lemma indexOf_first (l1 l2 : list Handler) (h : Handler) :
  hid h ∉ hid <$> l1 → indexOf (l1 ++ h :: l2) (hid h) = Some (length l1).
Proof.
  intros Habs. unfold indexOf.
  assert (list_find (λ h', hid h' = hid h) (l1 ++ h :: l2)
          = Some (length l1, h)) as ->; [|done].
  apply list_find_Some. split; [by rewrite list_lookup_middle|].
  split; [done|]. intros j y Hy Hj Heq.
  rewrite lookup_app_l in Hy by done.
  destruct Habs. rewrite <- Heq. apply list_elem_of_fmap. exists y.
  split; [done|]. by eapply list_elem_of_lookup_2.
Qed.

Lemma splice_out_absent (handlers : list Handler) (handler : nat) :
  handler ∉ hid <$> handlers → splice_out handlers handler = handlers.
Proof. intros Habs. unfold splice_out. by rewrite indexOf_absent. Qed.

Lemma splice_out_first (l1 l2 : list Handler) (h : Handler) :
  hid h ∉ hid <$> l1 → splice_out (l1 ++ h :: l2) (hid h) = l1 ++ l2.
Proof.
  intros Habs. unfold splice_out. rewrite indexOf_first by done.
  induction l1 as [|a l1 IH]; [done|]. simpl. f_equal. apply IH.
  intros Hin. apply Habs. rewrite fmap_cons. by right.
Qed.

Lemma handlers_of_on (e event : string) (handler : Handler) (w : World) :
  handlers_of e (on event handler w)
  = if decide (e = event) then handlers_of e w ++ [handler]
    else handlers_of e w.
Proof.
  unfold on, handlers_of.
  destruct (eventHandlers (client w) !! event) as [hs|] eqn:Hhs; simpl;
    case_decide as He; subst.
  - by rewrite lookup_insert_eq, Hhs.
  - by rewrite lookup_insert_ne.
  - by rewrite lookup_insert_eq, Hhs.
  - by rewrite lookup_insert_ne.
Qed.

Lemma handlers_of_off (e event : string) (handler : nat) (w : World) :
  handlers_of e (off event handler w)
  = if decide (e = event) then splice_out (handlers_of e w) handler
    else handlers_of e w.
Proof.
  unfold off, handlers_of, splice_out.
  destruct (eventHandlers (client w) !! event) as [hs|] eqn:Hhs; simpl.
  - destruct (indexOf hs handler) as [index|] eqn:Hi; simpl;
      case_decide as He; subst.
    + by rewrite lookup_insert_eq, Hhs; simpl; rewrite Hi.
    + by rewrite lookup_insert_ne.
    + by rewrite Hhs; simpl; rewrite Hi.
    + done.
  - case_decide as He; subst; [|done]. by rewrite Hhs.
Qed.

(** X1.  [off] with a handler that is not registered for the event, or with
    an event nothing was ever registered for, changes nothing at all. *)
Theorem off_unregistered (event : string) (handler : nat) (w : World) :
  handler ∉ hid <$> handlers_of event w →
  off event handler w = w.
Proof.
  intros Habs. unfold off. unfold handlers_of in Habs.
  destruct (eventHandlers (client w) !! event) as [hs|]; [|done].
  simpl in Habs. by rewrite indexOf_absent.
Qed.

Lemma off_unregistered_elsewhere :
  (100 ∉ hid <$> handlers_of "error" registered_twice) ∧
  off "error" 100 registered_twice = registered_twice ∧
  hid <$> handlers_of "message" (off "error" 100 registered_twice)
    = [100; 101; 100].
Proof.
  assert (100 ∉ hid <$> handlers_of "error" registered_twice) as Habs
    by (vm_compute; apply not_elem_of_nil).
  pose proof (off_unregistered "error" 100 registered_twice Habs) as Hoff.
  split; [exact Habs|]. split; [exact Hoff|]. by rewrite Hoff.
Defined.

(** X2.  [off] takes out one registration, the earliest one of that handler
    for that event; later registrations of the same handler, the other
    handlers and the other events stay as they are. *)
Theorem off_removes_first (event : string) (h : Handler)
    (l1 l2 : list Handler) (w : World) :
  handlers_of event w = l1 ++ h :: l2 →
  hid h ∉ hid <$> l1 →
  handlers_of event (off event (hid h) w) = l1 ++ l2 ∧
  ∀ e, e ≠ event → handlers_of e (off event (hid h) w) = handlers_of e w.
Proof.
  intros Hl Habs. split.
  - rewrite handlers_of_off, decide_True, Hl by done.
    by apply splice_out_first.
  - intros e He. by rewrite handlers_of_off, decide_False.
Qed.

Lemma off_removes_first_of_two :
  hid <$> handlers_of "message" registered_twice = [100; 101; 100] ∧
  hid <$> handlers_of "message" (off "message" 100 registered_twice)
    = [101; 100].
Proof.
  destruct (off_removes_first "message" (listener 100) []
              [listener 101; listener 100] registered_twice eq_refl)
    as [Hoff _]; [apply not_elem_of_nil|].
  change (hid (listener 100)) with 100 in Hoff.
  split; [reflexivity|]. by rewrite Hoff.
Defined.

(** X3.  Registering a handler that is not yet registered for the event and
    then deregistering it gives back the handler arrays of all events. *)
Theorem on_off_round_trip (event : string) (handler : Handler) (w : World) :
  hid handler ∉ hid <$> handlers_of event w →
  ∀ e, handlers_of e (off event (hid handler) (on event handler w))
       = handlers_of e w.
Proof.
  intros Habs e. rewrite handlers_of_off, handlers_of_on.
  destruct (decide (e = event)) as [->|He]; [|done].
  rewrite (splice_out_first _ [] handler) by done. by rewrite app_nil_r.
Qed.

Lemma on_off_round_trip_listener :
  (102 ∉ hid <$> handlers_of "message" registered_twice) ∧
  hid <$> handlers_of "message"
            (off "message" 102 (on "message" (listener 102) registered_twice))
    = [100; 101; 100].
Proof.
  assert (102 ∉ hid <$> handlers_of "message" registered_twice) as Habs.
  { apply (bool_decide_unpack _). by vm_compute. }
  split; [exact Habs|].
  pose proof (on_off_round_trip "message" (listener 102) registered_twice
                Habs "message") as Hrt.
  change (hid (listener 102)) with 102 in Hrt. by rewrite Hrt.
Defined.

(** ** Dispatches in which the handlers stay *)

Lemma same_bookkeeping_refl w : same_bookkeeping w w.
Proof. by repeat split. Qed.

Lemma same_bookkeeping_trans w1 w2 w3 :
  same_bookkeeping w1 w2 → same_bookkeeping w2 w3 → same_bookkeeping w1 w3.
Proof.
  unfold same_bookkeeping. intros H12 H23.
  destruct_and!. repeat split; congruence.
Qed.

Lemma call_handler_stays event h message w :
  stays message h = true →
  same_bookkeeping w (call_handler event h message w).
Proof.
  unfold stays, call_handler, invoke, lift, ret, throw.
  destruct (behaviour h); simpl; intros Hs;
    repeat (first [case_bool_decide | case_match]); simpl in *;
    simplify_eq; by repeat split.
Qed.

Lemma foldl_call_stays event message (l : list Handler) : ∀ w,
  Forall (λ h, stays message h = true) l →
  same_bookkeeping w (foldl (λ acc h, call_handler event h message acc) w l).
Proof.
  induction l as [|h l IH]; intros w Hl; simpl.
  - apply same_bookkeeping_refl.
  - apply Forall_cons in Hl as [Hh Hl].
    eapply same_bookkeeping_trans; [by apply call_handler_stays|by apply IH].
Qed.

Lemma foldl_call_calls event message (l : list Handler) : ∀ w,
  calls (rt (foldl (λ acc h, call_handler event h message acc) w l))
  = calls (rt w) ++ (call_of event message <$> l).
Proof.
  induction l as [|h l IH]; intros w; simpl.
  - by rewrite app_nil_r.
  - rewrite IH. destruct (call_handler_spec event h message w) as [-> _].
    by rewrite <- app_assoc.
Qed.

Lemma same_bookkeeping_handlers w w' e :
  same_bookkeeping w w' → handlers_of e w' = handlers_of e w.
Proof. intros [Hc _]. unfold handlers_of. by rewrite Hc. Qed.

(** As long as the handlers stay, [forEach] is a plain left-to-right walk. *)
Lemma forEach_stays event message (l : list Handler) : ∀ k n w,
  take (length l) (drop k (handlers_of event w)) = l →
  Forall (λ h, stays message h = true) l →
  forEach event message k (length l + n) w
  = forEach event message (k + length l) n
      (foldl (λ acc h, call_handler event h message acc) w l).
Proof.
  induction l as [|h l IH]; intros k n w Hl Hstay; simpl.
  - by rewrite Nat.add_0_r.
  - apply Forall_cons in Hstay as [Hh Hstay].
    assert (handlers_of event w !! k = Some h) as Hk.
    { rewrite <- (Nat.add_0_r k), <- lookup_drop.
      destruct (drop k (handlers_of event w)); simpl in Hl; by simplify_eq. }
    rewrite Hk.
    pose proof (call_handler_stays event h message w Hh) as Hkept.
    rewrite IH; [f_equal; lia| |done].
    rewrite (same_bookkeeping_handlers _ _ event Hkept).
    rewrite (drop_S _ _ _ Hk) in Hl. simpl in Hl. by simplify_eq.
Qed.

Lemma emit_all_stay event message w :
  Forall (λ h, stays message h = true) (handlers_of event w) →
  emit event message w
  = foldl (λ acc h, call_handler event h message acc) w (handlers_of event w).
Proof.
  intros Hstay. unfold emit, handlers_of in *.
  destruct (eventHandlers (client w) !! event) as [hs|] eqn:Hhs; [|done].
  simpl in *.
  pose proof (forEach_stays event message hs 0 0 w) as Hf.
  rewrite Nat.add_0_r in Hf. rewrite Hf; [done| |done].
  unfold handlers_of. rewrite Hhs. simpl. by rewrite take_ge.
Qed.

(** A dispatch over an array whose handlers stay, except perhaps the last. *)
Lemma emit_last event message (pre : list Handler) (h : Handler) w :
  handlers_of event w = pre ++ [h] →
  Forall (λ h, stays message h = true) pre →
  emit event message w
  = call_handler event h message
      (foldl (λ acc h, call_handler event h message acc) w pre).
Proof.
  intros Hhs Hstay. unfold emit.
  destruct (eventHandlers (client w) !! event) as [hs|] eqn:Hev.
  - assert (hs = pre ++ [h]) as -> by (unfold handlers_of in Hhs; by rewrite Hev in Hhs).
    rewrite length_app. simpl.
    rewrite (forEach_stays event message pre 0 1 w); [|by rewrite Hhs, drop_0, take_app_length|done].
    simpl.
    rewrite (same_bookkeeping_handlers w _ event)
      by by apply foldl_call_stays.
    by rewrite Hhs, list_lookup_middle.
  - unfold handlers_of in Hhs. rewrite Hev in Hhs. by destruct pre.
Qed.

(** X4.  A handler registered with [on] is called by the next dispatch of
    that event, with the dispatched message, after the handlers that were
    registered before it, provided those stay registered during the
    dispatch. *)
Theorem on_then_emit (event : string) (handler : Handler)
    (message : WebSocketMessage) (w : World) :
  Forall (λ h, stays message h = true) (handlers_of event w) →
  calls (rt (emit event message (on event handler w)))
  = calls (rt w)
    ++ (call_of event message <$> handlers_of event w)
    ++ [call_of event message handler].
Proof.
  intros Hstay.
  rewrite (emit_last event message (handlers_of event w) handler);
    [|by rewrite handlers_of_on, decide_True
     |done].
  destruct (call_handler_spec event handler message
              (foldl (λ acc h, call_handler event h message acc)
                 (on event handler w) (handlers_of event w))) as [-> _].
  rewrite foldl_call_calls, <- app_assoc. f_equal.
  unfold on. by case_match.
Qed.

Lemma on_then_emit_third_listener :
  Forall (λ h, stays status_message h = true)
    (handlers_of "message" two_listeners) ∧
  call_hid <$> drop (length (calls (rt two_listeners)))
                 (calls (rt (emit "message" status_message
                               (on "message" (listener 102) two_listeners))))
    = [100; 101; 102].
Proof.
  assert (Forall (λ h, stays status_message h = true)
            (handlers_of "message" two_listeners)) as Hstay
    by (vm_compute; by repeat constructor).
  split; [exact Hstay|].
  rewrite (on_then_emit "message" (listener 102) status_message two_listeners
             Hstay).
  rewrite drop_app_length. by vm_compute.
Defined.

(** ** One-shot waiters *)

Lemma fire_one_shot_spec (event : string) (handler tid pid : nat)
    (message : WebSocketMessage) (w : World) :
  promises (rt w) !! pid = Some Pending →
  let w' := fire_one_shot event handler tid pid message w in
  promises (rt w') = <[pid := Resolved message]> (promises (rt w)) ∧
  expired (rt w') = {[tid]} ∪ expired (rt w) ∧
  timeouts (rt w') = timeouts (rt w) ∧
  ∀ e, handlers_of e w'
       = if decide (e = event) then splice_out (handlers_of e w) handler
         else handlers_of e w.
Proof.
  intros Hp. unfold fire_one_shot.
  set (w1 := off event handler (clearTimeout tid w)).
  assert (rt w1 = rt (clearTimeout tid w)) as Hrt
    by (subst w1; unfold off; by repeat case_match).
  assert (promises (rt w1) = promises (rt w)) as Hp1 by by rewrite Hrt.
  unfold settle. rewrite Hp1, Hp. simpl. rewrite Hrt. simpl.
  repeat split; try done. intros e.
  change (handlers_of e (set_promises (<[pid:=Resolved message]> (promises (rt w))) w1))
    with (handlers_of e w1).
  subst w1. by rewrite handlers_of_off.
Qed.

Lemma emit_stays_kept event message w :
  Forall (λ h, stays message h = true) (handlers_of event w) →
  same_bookkeeping w (emit event message w).
Proof. intros Hs. rewrite emit_all_stay by done. by apply foldl_call_stays. Qed.

(** A one-shot handler registered last, behind handlers that stay, fires on
    the next message of its event: its promise is resolved with the message,
    its timer is cleared and it is out of the array again. *)
Lemma registered_one_shot_resolves (event : string) (hw : Handler)
    (tid pid : nat) (message : WebSocketMessage) (w0 w1 : World) :
  (∀ e, handlers_of e w1
        = if decide (e = event) then handlers_of e w0 ++ [hw]
          else handlers_of e w0) →
  msg_type message = event →
  Forall (λ h, stays message h = true) (handlers_of event w0) →
  Forall (λ h, stays message h = true) (handlers_of "message" w0) →
  hid hw ∉ hid <$> handlers_of event w0 →
  (∀ w', invoke hw message w'
         = Ok tt (fire_one_shot event (hid hw) tid pid message w')) →
  promises (rt w1) !! pid = Some Pending →
  is_Some (timeouts (rt w1) !! tid) →
  let w2 := handleMessage message w1 in
  promises (rt w2) !! pid = Some (Resolved message) ∧
  (∀ e, handlers_of e w2 = handlers_of e w0) ∧
  tid ∈ expired (rt w2) ∧
  fire_timer tid w2 = w2.
Proof.
  intros Hreg Htype Hstay Hstay_msg Hfresh Hinvoke Hp [t Ht] w2.
  subst w2. unfold handleMessage. rewrite Htype.
  pose proof (Hreg event) as Hev. rewrite decide_True in Hev by done.
  rewrite (emit_last event message (handlers_of event w0) hw w1) by done.
  set (wpre := foldl _ w1 (handlers_of event w0)).
  pose proof (foldl_call_stays event message (handlers_of event w0) w1 Hstay)
    as Hkept. fold wpre in Hkept.
  assert (∀ e, handlers_of e wpre = handlers_of e w1) as Hpre
    by (intros e; by apply same_bookkeeping_handlers).
  destruct Hkept as (Hc & _ & _ & Hto & Hex & Hpr & _).
  assert (promises (rt wpre) !! pid = Some Pending) as Hp' by by rewrite Hpr.
  destruct (fire_one_shot_spec event (hid hw) tid pid message wpre Hp')
    as (Hp2 & Hex2 & Hto2 & Hh2).
  unfold call_handler. rewrite Hinvoke.
  set (wf := fire_one_shot event (hid hw) tid pid message wpre) in *.
  set (w2 := set_calls _ wf).
  assert (∀ e, handlers_of e w2 = handlers_of e w0) as Hh.
  { intros e. change (handlers_of e w2) with (handlers_of e wf).
    rewrite Hh2, Hpre, Hreg.
    destruct (decide (e = event)) as [->|He]; [|done].
    rewrite (splice_out_first _ [] hw) by done. by rewrite app_nil_r. }
  assert (Forall (λ h, stays message h = true) (handlers_of "message" w2))
    as Hstay2 by by rewrite Hh.
  destruct (emit_stays_kept "message" message w2 Hstay2)
    as (Hc3 & _ & _ & Hto3 & Hex3 & Hpr3 & _).
  assert (pid < length (promises (rt wpre)))%nat as Hlt
    by by eapply lookup_lt_Some.
  assert (tid ∈ expired (rt (emit "message" message w2))) as Hexp.
  { rewrite Hex3. change (expired (rt w2)) with (expired (rt wf)).
    rewrite Hex2. by apply elem_of_union_l, elem_of_singleton. }
  repeat split.
  - rewrite Hpr3. change (promises (rt w2)) with (promises (rt wf)).
    rewrite Hp2. by apply list_lookup_insert_eq.
  - intros e. rewrite <- Hh. apply same_bookkeeping_handlers.
    by apply emit_stays_kept.
  - exact Hexp.
  - unfold fire_timer. rewrite Hto3.
    change (timeouts (rt w2)) with (timeouts (rt wf)). rewrite Hto2, Hto, Ht.
    destruct t as [delay action]. by rewrite bool_decide_eq_true_2.
Qed.

Lemma settle_keeps (pid pid' : nat) (st st' : PromiseState) (w : World) :
  promises (rt w) !! pid = Some st → st ≠ Pending →
  promises (rt (settle pid' st' w)) !! pid = Some st.
Proof.
  intros Hp Hst. unfold settle.
  destruct (promises (rt w) !! pid') as [[]|] eqn:Hp'; try done. simpl.
  rewrite list_lookup_insert_ne; [done|]. intros ->. congruence.
Qed.

Lemma invoke_keeps (h : Handler) (message : WebSocketMessage) (pid : nat)
    (st : PromiseState) (w : World) :
  promises (rt w) !! pid = Some st → st ≠ Pending →
  promises (rt (world_of (invoke h message w))) !! pid = Some st.
Proof.
  intros Hp Hst.
  assert (∀ event tid pid' st',
            promises (rt (settle pid' st' (off event (hid h) (clearTimeout tid w))))
              !! pid = Some st) as Hone.
  { intros. apply settle_keeps; [|done]. unfold off. by repeat case_match. }
  unfold invoke, lift, ret, throw.
  destruct (behaviour h); simpl; repeat case_match; simpl;
    first [ done | apply Hone ].
Qed.

Lemma call_handler_keeps event h message pid st w :
  promises (rt w) !! pid = Some st → st ≠ Pending →
  promises (rt (call_handler event h message w)) !! pid = Some st.
Proof.
  intros Hp Hst. pose proof (invoke_keeps h message pid st w Hp Hst) as Hi.
  unfold call_handler. by destruct (invoke h message w).
Qed.

Lemma forEach_keeps event message pid st n : ∀ k w,
  promises (rt w) !! pid = Some st → st ≠ Pending →
  promises (rt (forEach event message k n w)) !! pid = Some st.
Proof.
  induction n as [|n IH]; intros k w Hp Hst; simpl; [done|].
  case_match; [|by apply IH]. apply IH; [|done]. by apply call_handler_keeps.
Qed.

Lemma emit_keeps event message pid st w :
  promises (rt w) !! pid = Some st → st ≠ Pending →
  promises (rt (emit event message w)) !! pid = Some st.
Proof. intros Hp Hst. unfold emit. case_match; [|done]. by apply forEach_keeps. Qed.

Lemma waitForMessage_spec (type : string) (timeout : option Z) (w : World) :
  let pid := length (promises (rt w)) in
  let tid := length (timeouts (rt w)) in
  let hw := {| hid := closures (rt w);
               behaviour := BhWaitMessage type tid pid |} in
  let w1 := (waitForMessage type timeout w).2 in
  (waitForMessage type timeout w).1 = pid ∧
  (∀ e, handlers_of e w1
        = if decide (e = type) then handlers_of e w ++ [hw]
          else handlers_of e w) ∧
  promises (rt w1) = promises (rt w) ++ [Pending] ∧
  timeouts (rt w1)
    = timeouts (rt w)
      ++ [(default 5000%Z timeout, TWaitMessage type (closures (rt w)) pid)] ∧
  expired (rt w1) = expired (rt w).
Proof.
  cbv zeta. unfold waitForMessage. simpl. split; [done|]. split.
  - intros e. by rewrite handlers_of_on.
  - unfold on. by case_match.
Qed.

Lemma waitForCompletion_spec (J : string) (timeout : option Z) (w : World) :
  let pid := length (promises (rt w)) in
  let tid := length (timeouts (rt w)) in
  let hw := {| hid := closures (rt w);
               behaviour := BhWaitCompletion J tid pid |} in
  let w1 := (waitForCompletion J timeout w).2 in
  (waitForCompletion J timeout w).1 = pid ∧
  (∀ e, handlers_of e w1
        = if decide (e = "execution_update") then handlers_of e w ++ [hw]
          else handlers_of e w) ∧
  promises (rt w1) = promises (rt w) ++ [Pending] ∧
  timeouts (rt w1)
    = timeouts (rt w)
      ++ [(default 30000%Z timeout,
           TWaitCompletion J (closures (rt w)) pid)] ∧
  expired (rt w1) = expired (rt w).
Proof.
  cbv zeta. unfold waitForCompletion. simpl. split; [done|]. split.
  - intros e. by rewrite handlers_of_on.
  - unfold on. by case_match.
Qed.

(** X5.  [waitForMessage(type, timeout)] schedules its timer with the given
    delay, 5000ms when none is given.  When its handler is registered behind
    handlers that stay, the next message of that type resolves the promise
    with that message and leaves the handler arrays as they were before the
    call; the timer is cleared, so its firing later changes nothing. *)
Theorem waitForMessage_resolves (type : string) (timeout : option Z)
    (message : WebSocketMessage) (w : World) :
  msg_type message = type →
  Forall (λ h, stays message h = true) (handlers_of type w) →
  Forall (λ h, stays message h = true) (handlers_of "message" w) →
  closures (rt w) ∉ hid <$> handlers_of type w →
  let pid := (waitForMessage type timeout w).1 in
  let w1 := (waitForMessage type timeout w).2 in
  let tid := length (timeouts (rt w)) in
  let w2 := handleMessage message w1 in
  (fst <$> timeouts (rt w1) !! tid) = Some (default 5000%Z timeout) ∧
  promises (rt w1) !! pid = Some Pending ∧
  promises (rt w2) !! pid = Some (Resolved message) ∧
  (∀ e, handlers_of e w2 = handlers_of e w) ∧
  fire_timer tid w2 = w2.
Proof.
  intros Htype Hstay Hstay_msg Hfresh.
  destruct (waitForMessage_spec type timeout w) as (Hpid & Hh & Hp & Ht & _).
  cbv zeta in *. rewrite Hpid.
  assert (timeouts (rt (waitForMessage type timeout w).2)
            !! length (timeouts (rt w))
          = Some (default 5000%Z timeout,
                  TWaitMessage type (closures (rt w)) (length (promises (rt w)))))
    as Htid by (rewrite Ht; apply list_lookup_middle; done).
  assert (promises (rt (waitForMessage type timeout w).2)
            !! length (promises (rt w)) = Some Pending) as Hpending
    by (rewrite Hp; apply list_lookup_middle; done).
  split; [by rewrite Htid|]. split; [done|].
  destruct (registered_one_shot_resolves type _ (length (timeouts (rt w)))
              (length (promises (rt w))) message w
              (waitForMessage type timeout w).2 Hh Htype Hstay Hstay_msg)
    as (Hres & Hhs & _ & Hfire); try done.
Qed.

Lemma waitForMessage_resolves_status :
  let pid := (waitForMessage "status" None two_listeners).1 in
  let w1 := (waitForMessage "status" None two_listeners).2 in
  let w2 := handleMessage status_message w1 in
  (fst <$> timeouts (rt w1) !! 0) = Some 5000%Z ∧
  promises (rt w2) !! pid = Some (Resolved status_message) ∧
  hid <$> handlers_of "status" w1 = [0] ∧
  hid <$> handlers_of "status" w2 = [].
Proof.
  intros pid w1 w2.
  destruct (waitForMessage_resolves "status" None status_message two_listeners)
    as (Ht & _ & Hres & Hhs & _).
  - reflexivity.
  - by vm_compute.
  - vm_compute. by repeat constructor.
  - vm_compute. apply not_elem_of_nil.
  - split; [exact Ht|]. split; [exact Hres|]. split; [by vm_compute|].
    subst w2 w1. by rewrite Hhs.
Defined.

(** X6.  A [waitForCompletion] waiter registered behind handlers that stay
    (so not behind another waiter that fires on the same message) is resolved
    by the next completion update of its job with that message, its handler is
    out of the array again and its timer, set to the given delay or 30000ms,
    is cleared. *)
Theorem waitForCompletion_resolves_when_last (J : string) (timeout : option Z)
    (message : WebSocketMessage) (update : Data) (w : World) :
  msg_type message = "execution_update" →
  execution_id message = Some J →
  data message = Some update →
  data_type update = Some "completion" →
  Forall (λ h, stays message h = true) (handlers_of "execution_update" w) →
  Forall (λ h, stays message h = true) (handlers_of "message" w) →
  closures (rt w) ∉ hid <$> handlers_of "execution_update" w →
  let pid := (waitForCompletion J timeout w).1 in
  let w1 := (waitForCompletion J timeout w).2 in
  let tid := length (timeouts (rt w)) in
  let w2 := handleMessage message w1 in
  (fst <$> timeouts (rt w1) !! tid) = Some (default 30000%Z timeout) ∧
  promises (rt w1) !! pid = Some Pending ∧
  promises (rt w2) !! pid = Some (Resolved message) ∧
  (∀ e, handlers_of e w2 = handlers_of e w) ∧
  fire_timer tid w2 = w2.
Proof.
  intros Htype Hid Hdata Hcompl Hstay Hstay_msg Hfresh.
  destruct (waitForCompletion_spec J timeout w) as (Hpid & Hh & Hp & Ht & _).
  cbv zeta in *. rewrite Hpid.
  assert (timeouts (rt (waitForCompletion J timeout w).2)
            !! length (timeouts (rt w))
          = Some (default 30000%Z timeout,
                  TWaitCompletion J (closures (rt w)) (length (promises (rt w)))))
    as Htid by (rewrite Ht; apply list_lookup_middle; done).
  assert (promises (rt (waitForCompletion J timeout w).2)
            !! length (promises (rt w)) = Some Pending) as Hpending
    by (rewrite Hp; apply list_lookup_middle; done).
  split; [by rewrite Htid|]. split; [done|].
  destruct (registered_one_shot_resolves "execution_update" _
              (length (timeouts (rt w))) (length (promises (rt w))) message w
              (waitForCompletion J timeout w).2 Hh Htype Hstay Hstay_msg)
    as (Hres & Hhs & _ & Hfire); try done.
  intros w'. unfold invoke. simpl. rewrite Hid, Hdata, Hcompl.
  by rewrite !bool_decide_eq_true_2.
Qed.

Lemma waitForCompletion_resolves_when_last_J :
  let pid := (waitForCompletion "J" None listening).1 in
  let w1 := (waitForCompletion "J" None listening).2 in
  let w2 := handleMessage (completion_of "J") w1 in
  (fst <$> timeouts (rt w1) !! 0) = Some 30000%Z ∧
  promises (rt w2) !! pid = Some (Resolved (completion_of "J")) ∧
  hid <$> handlers_of "execution_update" w1 = [3; 5] ∧
  hid <$> handlers_of "execution_update" w2 = [3].
Proof.
  intros pid w1 w2.
  destruct (waitForCompletion_resolves_when_last "J" None (completion_of "J")
              (DUpdate {| eu_type := "completion"; eu_execution_id := "J";
                          eu_status := "completed"; eu_progress := 100;
                          eu_current_agent := None; eu_current_task := None;
                          eu_output := None; eu_error := None |}) listening)
    as (Ht & _ & Hres & Hhs & _).
  - reflexivity.
  - reflexivity.
  - reflexivity.
  - reflexivity.
  - vm_compute. by repeat constructor.
  - vm_compute. by repeat constructor.
  - apply (bool_decide_unpack _). by vm_compute.
  - split; [exact Ht|]. split; [exact Hres|]. split; [by vm_compute|].
    subst w2 w1. rewrite Hhs. by vm_compute.
Defined.

Lemma reject_one_shot_spec (event : string) (handler pid : nat)
    (reason : string) (w : World) :
  promises (rt w) !! pid = Some Pending →
  let w' := settle pid (Rejected reason) (off event handler w) in
  promises (rt w') !! pid = Some (Rejected reason) ∧
  ∀ e, handlers_of e w'
       = if decide (e = event) then splice_out (handlers_of e w) handler
         else handlers_of e w.
Proof.
  intros Hp. cbv zeta.
  assert (rt (off event handler w) = rt w) as Hrt
    by (unfold off; by repeat case_match).
  assert (pid < length (promises (rt w)))%nat as Hlt by by eapply lookup_lt_Some.
  unfold settle. rewrite Hrt, Hp. simpl. split.
  - by apply list_lookup_insert_eq.
  - intros e.
    change (handlers_of e (set_promises (<[pid:=Rejected reason]> (promises (rt w)))
                             (off event handler w)))
      with (handlers_of e (off event handler w)).
    by rewrite handlers_of_off.
Qed.

Lemma handleMessage_keeps message pid st w :
  promises (rt w) !! pid = Some st → st ≠ Pending →
  promises (rt (handleMessage message w)) !! pid = Some st.
Proof.
  intros Hp Hst. unfold handleMessage. apply emit_keeps; [|done].
  by apply emit_keeps.
Qed.

(** X7.  When the timer of a [waitForMessage] call fires before a message of
    its type was dispatched, the promise is rejected with the timeout error,
    the handler arrays are what they were before the call, and no message
    that arrives later changes the outcome. *)
Theorem waitForMessage_times_out (type : string) (timeout : option Z)
    (w : World) :
  closures (rt w) ∉ hid <$> handlers_of type w →
  length (timeouts (rt w)) ∉ expired (rt w) →
  let pid := (waitForMessage type timeout w).1 in
  let w1 := (waitForMessage type timeout w).2 in
  let w2 := fire_timer (length (timeouts (rt w))) w1 in
  let reason := "Timeout waiting for " +:+ type +:+ " message" in
  promises (rt w2) !! pid = Some (Rejected reason) ∧
  (∀ e, handlers_of e w2 = handlers_of e w) ∧
  ∀ message, promises (rt (handleMessage message w2)) !! pid
             = Some (Rejected reason).
Proof.
  intros Hfresh Htimer.
  destruct (waitForMessage_spec type timeout w) as (Hpid & Hh & Hp & Ht & Hex).
  cbv zeta in *. rewrite Hpid.
  set (w1 := (waitForMessage type timeout w).2) in *.
  unfold fire_timer. rewrite Ht, list_lookup_middle by done.
  rewrite bool_decide_eq_false_2 by by rewrite Hex. simpl.
  set (w1' := set_expired _ w1).
  destruct (reject_one_shot_spec type (closures (rt w))
              (length (promises (rt w)))
              ("Timeout waiting for " +:+ type +:+ " message") w1')
    as [Hrej Hhs].
  { subst w1'. simpl. rewrite Hp. by apply list_lookup_middle. }
  cbv zeta in *. split; [exact Hrej|]. split.
  - intros e. rewrite Hhs.
    change (handlers_of e w1') with (handlers_of e w1). rewrite Hh.
    destruct (decide (e = type)) as [->|He]; [|done].
    rewrite (splice_out_first _ []
               {| hid := closures (rt w);
                  behaviour := BhWaitMessage type (length (timeouts (rt w)))
                                 (length (promises (rt w))) |}) by done.
    by rewrite app_nil_r.
  - intros message. by apply handleMessage_keeps.
Qed.

Lemma waitForMessage_times_out_status :
  let pid := (waitForMessage "status" (Some 100%Z) two_listeners).1 in
  let w1 := (waitForMessage "status" (Some 100%Z) two_listeners).2 in
  let w2 := fire_timer 0 w1 in
  promises (rt w2) !! pid
    = Some (Rejected "Timeout waiting for status message") ∧
  hid <$> handlers_of "status" w2 = [] ∧
  promises (rt (handleMessage status_message w2)) !! pid
    = Some (Rejected "Timeout waiting for status message").
Proof.
  intros pid w1 w2.
  destruct (waitForMessage_times_out "status" (Some 100%Z) two_listeners)
    as (Hrej & Hhs & Hlate).
  - vm_compute. apply not_elem_of_nil.
  - apply (bool_decide_unpack _). by vm_compute.
  - split; [exact Hrej|]. split; [|exact (Hlate status_message)].
    subst w2 w1. by rewrite Hhs.
Defined.

(** X8.  When the timer of a [waitForCompletion] call fires before its
    handler has been called with a completion of its job, the promise is
    rejected with the timeout error naming the job, the handler arrays are
    what they were before the call, and no message that arrives later changes
    the outcome. *)
Theorem waitForCompletion_times_out (J : string) (timeout : option Z)
    (w : World) :
  closures (rt w) ∉ hid <$> handlers_of "execution_update" w →
  length (timeouts (rt w)) ∉ expired (rt w) →
  let pid := (waitForCompletion J timeout w).1 in
  let w1 := (waitForCompletion J timeout w).2 in
  let w2 := fire_timer (length (timeouts (rt w))) w1 in
  let reason := "Timeout waiting for execution " +:+ J +:+ " completion" in
  promises (rt w2) !! pid = Some (Rejected reason) ∧
  (∀ e, handlers_of e w2 = handlers_of e w) ∧
  ∀ message, promises (rt (handleMessage message w2)) !! pid
             = Some (Rejected reason).
Proof.
  intros Hfresh Htimer.
  destruct (waitForCompletion_spec J timeout w) as (Hpid & Hh & Hp & Ht & Hex).
  cbv zeta in *. rewrite Hpid.
  set (w1 := (waitForCompletion J timeout w).2) in *.
  unfold fire_timer. rewrite Ht, list_lookup_middle by done.
  rewrite bool_decide_eq_false_2 by by rewrite Hex. simpl.
  set (w1' := set_expired _ w1).
  destruct (reject_one_shot_spec "execution_update" (closures (rt w))
              (length (promises (rt w)))
              ("Timeout waiting for execution " +:+ J +:+ " completion") w1')
    as [Hrej Hhs].
  { subst w1'. simpl. rewrite Hp. by apply list_lookup_middle. }
  cbv zeta in *. split; [exact Hrej|]. split.
  - intros e. rewrite Hhs.
    change (handlers_of e w1') with (handlers_of e w1). rewrite Hh.
    destruct (decide (e = "execution_update")) as [->|He]; [|done].
    rewrite (splice_out_first _ []
               {| hid := closures (rt w);
                  behaviour := BhWaitCompletion J (length (timeouts (rt w)))
                                 (length (promises (rt w))) |}) by done.
    by rewrite app_nil_r.
  - intros message. by apply handleMessage_keeps.
Qed.

Lemma waitForCompletion_times_out_J :
  let pid := (waitForCompletion "J" (Some 100%Z) listening).1 in
  let w1 := (waitForCompletion "J" (Some 100%Z) listening).2 in
  let w2 := fire_timer 0 w1 in
  promises (rt w2) !! pid
    = Some (Rejected "Timeout waiting for execution J completion") ∧
  hid <$> handlers_of "execution_update" w2 = [3] ∧
  promises (rt (handleMessage (completion_of "J") w2)) !! pid
    = Some (Rejected "Timeout waiting for execution J completion").
Proof.
  intros pid w1 w2.
  destruct (waitForCompletion_times_out "J" (Some 100%Z) listening)
    as (Hrej & Hhs & Hlate).
  - apply (bool_decide_unpack _). by vm_compute.
  - apply (bool_decide_unpack _). by vm_compute.
  - split; [exact Hrej|]. split; [|exact (Hlate (completion_of "J"))].
    subst w2 w1. rewrite Hhs. by vm_compute.
Defined.

(** ** Subscribing and unsubscribing *)

Lemma isConnected_ws (w : World) :
  isConnected w = true → ∃ sid, ws (client w) = Some sid.
Proof.
  unfold isConnected. intros [_ H]%andb_true_iff.
  destruct (ws (client w)) as [sid|]; [by exists sid|done].
Qed.

Lemma subscribe_cases (executionId : string) (w : World) :
  subscribe executionId w
  = Ok tt (set_subscriptions ({[executionId]} ∪ subscriptions (client w))
             (if isConnected w
              then set_outbox (outbox (rt w)
                               ++ [(default 0 (ws (client w)),
                                    subscribe_frame executionId)]) w
              else console_put WarnNotConnected w)).
Proof.
  unfold subscribe, bind, lift.
  change {| f_type := "subscribe"; f_execution_id := Some executionId |}
    with (subscribe_frame executionId).
  rewrite sendMessage_cases. by destruct (isConnected w).
Qed.

Lemma unsubscribe_cases' (executionId : string) (w : World) :
  unsubscribe executionId w
  = Ok tt (set_subscriptions (subscriptions (client w) ∖ {[executionId]})
             (if isConnected w
              then set_outbox (outbox (rt w)
                               ++ [(default 0 (ws (client w)),
                                    unsubscribe_frame executionId)]) w
              else console_put WarnNotConnected w)).
Proof.
  unfold unsubscribe, bind, lift.
  change {| f_type := "unsubscribe"; f_execution_id := Some executionId |}
    with (unsubscribe_frame executionId).
  rewrite sendMessage_cases. by destruct (isConnected w).
Qed.

(** X9.  [subscribe] returns normally and records the job id whether or not
    the client is connected.  Subscribing a second time leaves the set as it
    is after the first; when connected each call sends its own subscribe
    frame, and when not connected each call only writes a warning. *)
Theorem subscribe_twice (executionId : string) (w : World) :
  ∃ w1 w2,
    subscribe executionId w = Ok tt w1 ∧
    subscribe executionId w1 = Ok tt w2 ∧
    subscriptions (client w1) = {[executionId]} ∪ subscriptions (client w) ∧
    subscriptions (client w2) = subscriptions (client w1) ∧
    if isConnected w
    then ∃ sid, ws (client w) = Some sid ∧
                outbox (rt w2)
                  = outbox (rt w) ++ [(sid, subscribe_frame executionId);
                                      (sid, subscribe_frame executionId)]
    else outbox (rt w2) = outbox (rt w) ∧
         console (rt w2)
           = console (rt w) ++ [WarnNotConnected; WarnNotConnected].
Proof.
  eexists _, _. split; [apply subscribe_cases|].
  split; [apply subscribe_cases|]. split; [done|]. split.
  - simpl. by rewrite (assoc_L (∪)), union_idemp_L.
  - destruct (isConnected w) eqn:Hc.
    + destruct (isConnected_ws w Hc) as [sid Hsid]. exists sid.
      split; [done|].
      change (isConnected (set_subscriptions _ (set_outbox _ w)))
        with (isConnected w). rewrite Hc. simpl.
      by rewrite Hsid, <- app_assoc.
    + change (isConnected (set_subscriptions _ (console_put _ w)))
        with (isConnected w). rewrite Hc. simpl.
      by rewrite <- app_assoc.
Qed.

(** X10.  Subscribing a job id that is not in the set and then unsubscribing
    it gives back the set; when connected the two frames go out in that
    order on the current socket. *)
Theorem subscribe_unsubscribe_round_trip (executionId : string) (w : World) :
  executionId ∉ subscriptions (client w) →
  ∃ w1 w2,
    subscribe executionId w = Ok tt w1 ∧
    unsubscribe executionId w1 = Ok tt w2 ∧
    executionId ∈ subscriptions (client w1) ∧
    subscriptions (client w2) = subscriptions (client w) ∧
    if isConnected w
    then ∃ sid, ws (client w) = Some sid ∧
                outbox (rt w2)
                  = outbox (rt w) ++ [(sid, subscribe_frame executionId);
                                      (sid, unsubscribe_frame executionId)]
    else outbox (rt w2) = outbox (rt w).
Proof.
  intros Habs. eexists _, _. split; [apply subscribe_cases|].
  split; [apply unsubscribe_cases'|]. split; [|split].
  - simpl. by apply elem_of_union_l, elem_of_singleton.
  - simpl. rewrite difference_union_distr_l_L, difference_diag_L.
    rewrite (left_id_L ∅ (∪)).
    by apply difference_disjoint_L, disjoint_singleton_r.
  - destruct (isConnected w) eqn:Hc.
    + destruct (isConnected_ws w Hc) as [sid Hsid]. exists sid.
      split; [done|].
      change (isConnected (set_subscriptions _ (set_outbox _ w)))
        with (isConnected w). rewrite Hc. simpl.
      by rewrite Hsid, <- app_assoc.
    + change (isConnected (set_subscriptions _ (console_put _ w)))
        with (isConnected w). by rewrite Hc.
Qed.

Lemma subscribe_unsubscribe_round_trip_C :
  ("C" ∉ subscriptions (client subscribed_AB)) ∧
  (∃ w1 w2,
     subscribe "C" subscribed_AB = Ok tt w1 ∧
     unsubscribe "C" w1 = Ok tt w2 ∧
     subscriptions (client w2) = subscriptions (client subscribed_AB) ∧
     outbox (rt w2)
       = outbox (rt subscribed_AB)
         ++ [(0, subscribe_frame "C"); (0, unsubscribe_frame "C")]).
Proof.
  assert ("C" ∉ subscriptions (client subscribed_AB)) as Habs
    by (apply (bool_decide_unpack _); by vm_compute).
  split; [exact Habs|].
  destruct (subscribe_unsubscribe_round_trip "C" subscribed_AB Habs)
    as (w1 & w2 & H1 & H2 & _ & Hs & Hout).
  exists w1, w2. split; [exact H1|]. split; [exact H2|]. split; [exact Hs|].
  change (isConnected subscribed_AB) with true in Hout.
  destruct Hout as (sid & Hsid & Hout).
  change (Some 0 = Some sid) in Hsid. by simplify_eq.
Defined.

(** ** The connection flag *)

(** X11.  After [disconnect] and after every close event, of whichever
    socket, [isConnected] is false, and a frame sent then reaches no socket:
    only a warning is written. *)
Theorem close_marks_disconnected (JSON_parse : string → option WebSocketMessage)
    (w : World) (sid : nat) (code : Z) (reason : string) (frame : Frame) :
  let w1 := step JSON_parse (EvClose sid code reason) w in
  isConnected w1 = false ∧
  isConnected (disconnect w) = false ∧
  ∃ w2, sendMessage frame w1 = Ok tt w2 ∧
        outbox (rt w2) = outbox (rt w1) ∧
        console (rt w2) = console (rt w1) ++ [WarnNotConnected].
Proof.
  cbv zeta.
  assert (isConnected (step JSON_parse (EvClose sid code reason) w) = false)
    as Hclosed.
  { simpl. unfold onclose.
    set (w2 := set_connected false _).
    set (message := {| msg_type := "disconnected" |}).
    destruct (emit_transport "disconnected" message w2) as (_ & Hc & _).
    assert (connected (client (emit "disconnected" message w2)) = false)
      as Hflag by by rewrite Hc.
    unfold isConnected. case_match; simpl; by rewrite Hflag. }
  split; [exact Hclosed|]. split.
  - unfold disconnect, isConnected.
    destruct (ws (client w)) as [s|] eqn:Hws; simpl; [done|].
    rewrite Hws. apply andb_false_r.
  - eexists. split; [apply sendMessage_cases|]. by rewrite Hclosed.
Qed.

Lemma same_link_refl w : same_link w w.
Proof. by repeat split. Qed.

Lemma same_link_trans w1 w2 w3 :
  same_link w1 w2 → same_link w2 w3 → same_link w1 w3.
Proof.
  unfold same_link. intros H12 H23. destruct_and!. repeat split; congruence.
Qed.

Lemma same_transport_link w w' : same_transport w w' → same_link w w'.
Proof.
  unfold same_transport, same_link. intros H. destruct_and!.
  repeat split; congruence.
Qed.

Lemma isConnected_fmap (w : World) :
  isConnected w
  = connected (client w) &&
    match ws (client w) with
    | Some sid => bool_decide ((readyState <$> sockets (rt w)) !! sid = Some OPEN)
    | None => false
    end.
Proof.
  unfold isConnected. f_equal. destruct (ws (client w)) as [sid|]; [|done].
  rewrite list_lookup_fmap. destruct (sockets (rt w) !! sid) as [s|]; simpl.
  - apply bool_decide_ext. split; congruence.
  - done.
Qed.

Lemma same_link_isConnected w w' :
  same_link w w' → isConnected w' = isConnected w.
Proof.
  intros (Hws & Hc & _ & _ & Hst). by rewrite !isConnected_fmap, Hws, Hc, Hst.
Qed.

Lemma subscribe_link executionId w :
  same_link w (world_of (subscribe executionId w)).
Proof. rewrite subscribe_cases. simpl. by destruct (isConnected w). Qed.

Lemma resubscribe_loop_link (ids : list string) : ∀ w,
  same_link w (world_of (resubscribe_loop ids w)).
Proof.
  induction ids as [|id ids IH]; intros w; simpl; [apply same_link_refl|].
  unfold bind. pose proof (subscribe_link id w) as Hs.
  destruct (subscribe id w) as [[] w1|e w1]; simpl in *; [|done].
  eapply same_link_trans; [exact Hs|apply IH].
Qed.

Lemma resubscribe_link w : same_link w (resubscribe w).
Proof.
  unfold resubscribe.
  pose proof (resubscribe_loop_link (elements (subscriptions (client w))) w)
    as Hl.
  destruct (resubscribe_loop _ w) as [[] w1|e w1]; simpl in *; [done|].
  eapply same_link_trans; [exact Hl|by repeat split].
Qed.

Lemma settled_link sid s st (w : World) :
  sockets (rt w) !! sid = Some s →
  same_link w (set_sockets (<[sid := {| readyState := readyState s;
                                        closeCall := closeCall s;
                                        settled := st;
                                        awaiting := awaiting s |}]>
                              (sockets (rt w))) w).
Proof.
  intros Hs. repeat split. simpl. rewrite list_fmap_insert. simpl.
  apply list_insert_id. by rewrite list_lookup_fmap, Hs.
Qed.

Lemma resolve_connect_link sid w : same_link w (resolve_connect sid w).
Proof.
  unfold resolve_connect.
  destruct (sockets (rt w) !! sid) as [s|] eqn:Hs; [|apply same_link_refl].
  destruct (settled s); [apply same_link_refl|].
  pose proof (settled_link sid s true w Hs) as Hl.
  destruct (awaiting s); try exact Hl.
  eapply same_link_trans; [exact Hl|apply resubscribe_link].
Qed.

Lemma set_readyState_spec sid st (w : World) :
  ws (client (set_readyState sid st w)) = ws (client w) ∧
  reconnectAttempts (client (set_readyState sid st w))
    = reconnectAttempts (client w) ∧
  timeouts (rt (set_readyState sid st w)) = timeouts (rt w) ∧
  readyState <$> sockets (rt (set_readyState sid st w))
    = <[sid := st]> (readyState <$> sockets (rt w)).
Proof.
  unfold set_readyState.
  destruct (sockets (rt w) !! sid) as [s|] eqn:Hs; simpl.
  - by rewrite list_fmap_insert.
  - repeat split. rewrite list_insert_ge; [done|].
    rewrite length_fmap. by apply lookup_ge_None.
Qed.

(** What the task of an open event leaves behind. *)
Lemma onopen_spec sid w :
  let w' := onopen sid w in
  ws (client w') = ws (client w) ∧
  connected (client w') = true ∧
  reconnectAttempts (client w') = 0 ∧
  timeouts (rt w') = timeouts (rt w) ∧
  readyState <$> sockets (rt w') = readyState <$> sockets (rt w).
Proof.
  unfold onopen.
  set (w3 := set_reconnectAttempts 0 _).
  set (message := {| msg_type := "connected" |}).
  pose proof (same_transport_link _ _ (emit_transport "connected" message w3))
    as Hl.
  pose proof (resolve_connect_link sid (emit "connected" message w3)) as Hr.
  destruct (same_link_trans _ _ _ Hl Hr) as (Hws & Hc & Ha & Ht & Hst).
  cbv zeta. by rewrite Hws, Hc, Ha, Ht, Hst.
Qed.

(** X12.  Every open event raises the [connected] flag and puts the attempt
    counter back to zero, so that the next unexpected close is followed by a
    reconnect after one second again. *)
Theorem open_resets_backoff (JSON_parse : string → option WebSocketMessage)
    (w : World) (sid sid' : nat) (code : Z) (reason : string) :
  code ≠ 1000%Z →
  let w1 := step JSON_parse (EvOpen sid) w in
  connected (client w1) = true ∧
  reconnectAttempts (client w1) = 0 ∧
  reconnect_delays w1 (step JSON_parse (EvClose sid' code reason) w1)
    = [1000%Z].
Proof.
  intros Hcode. cbv zeta.
  destruct (onopen_spec sid (set_readyState sid OPEN w))
    as (_ & Hc & Ha & _ & _).
  change (onopen sid (set_readyState sid OPEN w))
    with (step JSON_parse (EvOpen sid) w) in Hc, Ha.
  split; [exact Hc|]. split; [exact Ha|].
  set (w1 := step JSON_parse (EvOpen sid) w) in *.
  destruct (set_readyState_spec sid' CLOSED w1) as (_ & Ha' & Ht' & _).
  pose proof (onclose_backoff code reason (set_readyState sid' CLOSED w1)) as Hb.
  cbv zeta in Hb. rewrite Ha', Ha in Hb.
  rewrite bool_decide_eq_false_2 in Hb by done. simpl in Hb.
  destruct Hb as [_ Hb].
  unfold reconnect_delays. simpl. rewrite Hb, Ht', drop_app_length.
  by vm_compute.
Qed.

Lemma open_resets_backoff_exhausted :
  reconnectAttempts (client exhausted) = 5 ∧
  reconnectAttempts
    (client (step (parse_table []) (EvOpen 5) exhausted)) = 0 ∧
  reconnect_delays (step (parse_table []) (EvOpen 5) exhausted)
    (step (parse_table []) (EvClose 5 1006 EmptyString)
       (step (parse_table []) (EvOpen 5) exhausted))
  = [1000%Z].
Proof.
  assert (1006%Z ≠ 1000%Z) as Hcode by done.
  destruct (open_resets_backoff (parse_table []) exhausted 5 5 1006
              EmptyString Hcode) as (_ & Ha & Hd).
  split; [by vm_compute|]. split; [exact Ha|exact Hd].
Defined.

(** X13.  When the socket [this.ws] points to opens, [isConnected] becomes
    true and a frame sent next goes out on that socket. *)
Theorem open_marks_connected (JSON_parse : string → option WebSocketMessage)
    (w : World) (sid : nat) (frame : Frame) :
  ws (client w) = Some sid →
  is_Some (sockets (rt w) !! sid) →
  let w1 := step JSON_parse (EvOpen sid) w in
  isConnected w1 = true ∧
  ∃ w2, sendMessage frame w1 = Ok tt w2 ∧
        outbox (rt w2) = outbox (rt w1) ++ [(sid, frame)].
Proof.
  intros Hws Hs. cbv zeta.
  destruct (onopen_spec sid (set_readyState sid OPEN w))
    as (Hws1 & Hc & _ & _ & Hst).
  destruct (set_readyState_spec sid OPEN w) as (Hws0 & _ & _ & Hst0).
  change (onopen sid (set_readyState sid OPEN w))
    with (step JSON_parse (EvOpen sid) w) in *.
  set (w1 := step JSON_parse (EvOpen sid) w) in *.
  assert (ws (client w1) = Some sid) as Hws' by congruence.
  assert (isConnected w1 = true) as Hopen.
  { rewrite isConnected_fmap, Hc, Hws', Hst, Hst0. simpl.
    apply bool_decide_eq_true_2, list_lookup_insert_eq.
    rewrite length_fmap. by apply lookup_lt_is_Some. }
  split; [exact Hopen|]. eexists. split; [apply sendMessage_cases|].
  by rewrite Hopen, Hws'.
Qed.

Lemma open_marks_connected_reconnect :
  ws (client reconnecting_AB) = Some 1 ∧
  isConnected reconnecting_AB = false ∧
  isConnected (step (parse_table []) (EvOpen 1) reconnecting_AB) = true.
Proof.
  destruct (open_marks_connected (parse_table []) reconnecting_AB 1
              {| f_type := "ping"; f_execution_id := None |} eq_refl)
    as [Hopen _]; [by eexists|].
  split; [reflexivity|]. split; [by vm_compute|exact Hopen].
Defined.

(** ** Reconnection *)

(** X14.  Once the attempt counter has reached the maximum, no run of tasks
    without a socket open schedules a reconnect: not further unexpected
    closes, and not calls of [connect] or [disconnect], which leave the
    counter alone. *)
Theorem retries_exhausted (JSON_parse : string → option WebSocketMessage)
    (w : World) (evs : list Event) :
  (maxReconnectAttempts ≤ reconnectAttempts (client w))%nat →
  Forall (λ ev, is_open ev = false) evs →
  reconnect_delays w (run JSON_parse evs w) = [].
Proof.
  intros Hmax Hevs.
  destruct (run_backoff JSON_parse evs w Hevs) as (extra & Ht & Hd).
  unfold reconnect_delays. rewrite Ht, drop_app_length.
  fold (delays_of extra). by rewrite Hd, backoff_exhausted.
Qed.

Lemma retries_exhausted_after_six_drops :
  reconnectAttempts (client exhausted) = 5 ∧
  reconnect_delays exhausted
    (run (parse_table [])
       [ CallConnect; EvError 6; EvClose 6 1006 EmptyString;
         CallDisconnect; CallConnect; EvClose 7 1006 EmptyString ]
       exhausted)
  = [].
Proof.
  split; [by vm_compute|].
  apply retries_exhausted.
  - apply (bool_decide_unpack _). by vm_compute.
  - by repeat constructor.
Defined.

(** X15.  [disconnect] does not cancel a reconnect that is already
    scheduled: when that timer fires afterwards, [connect] runs, and a new
    socket, still connecting, becomes [this.ws]. *)
Theorem scheduled_reconnect_survives_disconnect (w : World) (tid : nat)
    (delay : Z) :
  timeouts (rt w) !! tid = Some (delay, TReconnect) →
  tid ∉ expired (rt w) →
  let w1 := fire_timer tid (disconnect w) in
  ws (client (disconnect w)) = None ∧
  ws (client w1) = Some (length (sockets (rt w))) ∧
  sockets (rt w1) !! length (sockets (rt w))
    = Some {| readyState := CONNECTING; closeCall := None;
              settled := false; awaiting := KReconnect |}.
Proof.
  intros Ht Hexp.
  assert (timeouts (rt (disconnect w)) = timeouts (rt w) ∧
          expired (rt (disconnect w)) = expired (rt w) ∧
          length (sockets (rt (disconnect w))) = length (sockets (rt w)) ∧
          ws (client (disconnect w)) = None) as (Ht' & Hexp' & Hlen & Hws).
  { unfold disconnect, WebSocket_close.
    destruct (ws (client w)) eqn:Hws; [|done].
    repeat case_match; simpl; by rewrite ?length_insert. }
  cbv zeta. split; [exact Hws|].
  unfold fire_timer. rewrite Ht', Ht, Hexp'.
  rewrite bool_decide_eq_false_2 by done. simpl.
  unfold connect. simpl. rewrite Hlen. split; [done|].
  rewrite <- Hlen. by apply list_lookup_middle.
Qed.

Lemma scheduled_reconnect_survives_disconnect_AB :
  timeouts (rt dropped_AB) = [(1000%Z, TReconnect)] ∧
  ws (client (disconnect dropped_AB)) = None ∧
  ws (client (fire_timer 0 (disconnect dropped_AB))) = Some 1.
Proof.
  destruct (scheduled_reconnect_survives_disconnect dropped_AB 0 1000 eq_refl)
    as (Hnone & Hws & _).
  - apply (bool_decide_unpack _). by vm_compute.
  - split; [by vm_compute|]. split; [exact Hnone|exact Hws].
Defined.

(** ** Mounting and unmounting the hook *)

Lemma foldl_on_handlers (l : list (string * Handler)) : ∀ (e : string) w,
  handlers_of e (foldl (λ acc eh, on eh.1 eh.2 acc) w l)
  = handlers_of e w ++ (snd <$> filter (λ eh, eh.1 = e) l).
Proof.
  induction l as [|[ev h] l IH]; intros e w; simpl.
  - by rewrite ?filter_nil, app_nil_r.
  - rewrite IH, handlers_of_on. destruct (decide (e = ev)) as [->|He].
    + rewrite filter_cons_True by done. by rewrite <- app_assoc.
    + by rewrite filter_cons_False by (simpl; congruence).
Qed.

Lemma foldl_off_handlers (l : list (string * Handler)) : ∀ (e : string) w,
  handlers_of e (foldl (λ acc eh, off eh.1 (hid eh.2) acc) w l)
  = foldl splice_out (handlers_of e w)
      (hid <$> (snd <$> filter (λ eh, eh.1 = e) l)).
Proof.
  induction l as [|[ev h] l IH]; intros e w; simpl.
  - by rewrite ?filter_nil.
  - rewrite IH, handlers_of_off. destruct (decide (e = ev)) as [->|He].
    + by rewrite filter_cons_True by done.
    + by rewrite filter_cons_False by (simpl; congruence).
Qed.

Lemma foldl_on_only_handlers (l : list (string * Handler)) : ∀ w,
  ∃ table, foldl (λ acc eh, on eh.1 eh.2 acc) w l = set_eventHandlers table w.
Proof.
  induction l as [|[ev h] l IH]; intros w; simpl.
  - exists (eventHandlers (client w)). by destruct w as [[] ? ?].
  - destruct (IH (on ev h w)) as [table ->]. exists table.
    unfold on. by case_match.
Qed.

Lemma splice_out_last (l : list Handler) (h : Handler) (reference : nat) :
  reference = hid h → reference ∉ hid <$> l →
  splice_out (l ++ [h]) reference = l.
Proof.
  intros -> Habs. rewrite (splice_out_first l [] h) by done.
  by rewrite app_nil_r.
Qed.

Lemma hook_mount_handlers (e : string) (w : World) :
  handlers_of e (hook_mount w).2
  = handlers_of e w
    ++ (snd <$> filter (λ eh, eh.1 = e) (hook_handlers (closures (rt w)))).
Proof.
  unfold hook_mount. cbn [snd].
  rewrite <- (foldl_on_handlers _ e (set_closures (closures (rt w) + 5) w)).
  by case_match.
Qed.

Ltac filter_steps :=
  repeat first
    [ rewrite filter_cons_True by (simpl; done)
    | rewrite filter_cons_False by (simpl; congruence) ];
  rewrite ?filter_nil.

(** X16.  Unmounting the hook takes out exactly the five handlers that
    mounting put in: the handler arrays of all events are as before the
    mount. *)
Theorem hook_mount_unmount_round_trip (w : World) :
  Forall (λ eh, hid eh.2 ∉ hid <$> handlers_of eh.1 w)
    (hook_handlers (closures (rt w))) →
  ∀ e, handlers_of e (hook_unmount (hook_mount w).1 (hook_mount w).2)
       = handlers_of e w.
Proof.
  intros Hfresh e. unfold hook_unmount.
  rewrite foldl_off_handlers, hook_mount_handlers.
  change (hook_mount w).1 with (closures (rt w)).
  unfold hook_handlers in *.
  repeat (apply Forall_cons in Hfresh as [? Hfresh]). simpl in *.
  destruct (decide (e = "connected")) as [->|?];
    [|destruct (decide (e = "disconnected")) as [->|?];
      [|destruct (decide (e = "message")) as [->|?];
        [|destruct (decide (e = "execution_update")) as [->|?];
          [|destruct (decide (e = "error")) as [->|?]]]]];
    filter_steps; simpl; rewrite ?app_nil_r; try done.
  all: match goal with
       | |- splice_out (?l ++ [?h]) ?x = _ => by apply splice_out_last
       end.
Qed.

Lemma hook_mount_unmount_round_trip_listeners :
  hid <$> handlers_of "message" two_listeners = [100; 101] ∧
  hid <$> handlers_of "message" (hook_mount two_listeners).2
    = [100; 101; 2] ∧
  hid <$> handlers_of "message"
            (hook_unmount (hook_mount two_listeners).1
               (hook_mount two_listeners).2)
    = [100; 101].
Proof.
  split; [by vm_compute|]. split; [by vm_compute|].
  rewrite (hook_mount_unmount_round_trip two_listeners); [by vm_compute|].
  unfold hook_handlers.
  repeat constructor; simpl; apply (bool_decide_unpack _); by vm_compute.
Defined.

(** X17.  Mounting the hook opens a connection exactly when [isConnected] is
    false: with an open connection no socket is created and the hook's state
    is set to connected; otherwise, also while an earlier socket is still
    connecting, a new socket is created and becomes [this.ws], the earlier
    sockets being left as they are. *)
Theorem hook_mount_connects (w : World) :
  let w1 := (hook_mount w).2 in
  if isConnected w
  then sockets (rt w1) = sockets (rt w) ∧
       ws (client w1) = ws (client w) ∧
       hk_connected (hook w1) = true
  else sockets (rt w1)
         = sockets (rt w) ++ [{| readyState := CONNECTING; closeCall := None;
                                 settled := false; awaiting := KHook |}] ∧
       ws (client w1) = Some (length (sockets (rt w))) ∧
       hk_connected (hook w1) = hk_connected (hook w).
Proof.
  unfold hook_mount. cbn [snd]. cbv zeta.
  destruct (foldl_on_only_handlers (hook_handlers (closures (rt w)))
              (set_closures (closures (rt w) + 5) w)) as [table ->].
  change (isConnected (set_eventHandlers table
                         (set_closures (closures (rt w) + 5) w)))
    with (isConnected w).
  by destruct (isConnected w).
Qed.

Lemma hook_mount_connects_while_connecting :
  isConnected mounted = false ∧
  ws (client mounted) = Some 0 ∧
  readyState <$> sockets (rt (hook_mount mounted).2)
    = [CONNECTING; CONNECTING] ∧
  ws (client (hook_mount mounted).2) = Some 1.
Proof.
  pose proof (hook_mount_connects mounted) as H.
  cbv zeta in H. change (isConnected mounted) with false in H.
  destruct H as (Hs & Hws & _).
  split; [reflexivity|]. split; [reflexivity|].
  split; [rewrite Hs; by vm_compute|exact Hws].
Defined.

(** ** The identity of the client *)

Lemma same_identity_refl w : same_identity w w.
Proof. by split. Qed.

Lemma same_identity_trans w1 w2 w3 :
  same_identity w1 w2 → same_identity w2 w3 → same_identity w1 w3.
Proof. intros [??] [??]. split; congruence. Qed.

Ltac identity_steps :=
  split; repeat first [ progress simpl | case_match | case_bool_decide ];
  done.

Lemma on_identity event handler w : same_identity w (on event handler w).
Proof. unfold on. identity_steps. Qed.

Lemma off_identity event handler w : same_identity w (off event handler w).
Proof. unfold off. identity_steps. Qed.

Lemma settle_identity pid st w : same_identity w (settle pid st w).
Proof. unfold settle. identity_steps. Qed.

Lemma invoke_identity h message w :
  same_identity w (world_of (invoke h message w)).
Proof.
  assert (∀ event tid pid st,
            same_identity w
              (settle pid st (off event (hid h) (clearTimeout tid w)))) as Hone.
  { intros. eapply same_identity_trans; [|apply settle_identity].
    eapply same_identity_trans; [|apply off_identity]. by split. }
  unfold invoke, lift, ret, throw.
  destruct (behaviour h); simpl; repeat case_match; simpl;
    first [ by split | apply Hone ].
Qed.

Lemma call_handler_identity event h message w :
  same_identity w (call_handler event h message w).
Proof.
  unfold call_handler. pose proof (invoke_identity h message w) as Hi.
  destruct (invoke h message w); simpl in Hi;
    (eapply same_identity_trans; [exact Hi|by split]).
Qed.

Lemma forEach_identity event message n : ∀ k w,
  same_identity w (forEach event message k n w).
Proof.
  induction n as [|n IH]; intros k w; simpl; [apply same_identity_refl|].
  case_match; [|apply IH].
  eapply same_identity_trans; [apply call_handler_identity|apply IH].
Qed.

Lemma emit_identity event message w : same_identity w (emit event message w).
Proof.
  unfold emit. case_match; [apply forEach_identity|apply same_identity_refl].
Qed.

Lemma sendMessage_identity message w :
  same_identity w (world_of (sendMessage message w)).
Proof. rewrite sendMessage_cases. simpl. by destruct (isConnected w). Qed.

Lemma subscribe_identity executionId w :
  same_identity w (world_of (subscribe executionId w)).
Proof. rewrite subscribe_cases. simpl. by destruct (isConnected w). Qed.

Lemma unsubscribe_identity executionId w :
  same_identity w (world_of (unsubscribe executionId w)).
Proof. rewrite unsubscribe_cases'. simpl. by destruct (isConnected w). Qed.

Lemma resubscribe_identity w : same_identity w (resubscribe w).
Proof.
  unfold resubscribe.
  assert (∀ ids w0, same_identity w0 (world_of (resubscribe_loop ids w0)))
    as Hloop.
  { induction ids as [|id ids IH]; intros w0; simpl; [by split|].
    unfold bind. pose proof (subscribe_identity id w0) as Hs.
    destruct (subscribe id w0) as [[] w1|e w1]; simpl in *; [|done].
    eapply same_identity_trans; [exact Hs|apply IH]. }
  pose proof (Hloop (elements (subscriptions (client w))) w) as Hl.
  destruct (resubscribe_loop _ w); simpl in *; [done|].
  eapply same_identity_trans; [exact Hl|by split].
Qed.

Lemma resolve_connect_identity sid w : same_identity w (resolve_connect sid w).
Proof.
  unfold resolve_connect. repeat case_match; try by split.
  eapply same_identity_trans; [|apply resubscribe_identity]. by split.
Qed.

Lemma reject_connect_identity sid w : same_identity w (reject_connect sid w).
Proof. unfold reject_connect. identity_steps. Qed.

Lemma set_readyState_identity sid st w :
  same_identity w (set_readyState sid st w).
Proof. unfold set_readyState. identity_steps. Qed.

Lemma onopen_identity sid w : same_identity w (onopen sid w).
Proof.
  unfold onopen.
  eapply same_identity_trans; [|apply resolve_connect_identity].
  eapply same_identity_trans; [|apply emit_identity]. by split.
Qed.

Lemma onclose_identity code reason w : same_identity w (onclose code reason w).
Proof.
  unfold onclose.
  set (w3 := emit _ _ _).
  assert (same_identity w w3) as H3
    by (eapply same_identity_trans; [|apply emit_identity]; by split).
  case_match; [|done]. eapply same_identity_trans; [exact H3|by split].
Qed.

Lemma onerror_identity sid w : same_identity w (onerror sid w).
Proof.
  unfold onerror.
  eapply same_identity_trans; [|apply reject_connect_identity].
  eapply same_identity_trans; [|apply emit_identity]. by split.
Qed.

Lemma disconnect_identity w : same_identity w (disconnect w).
Proof. unfold disconnect, WebSocket_close. identity_steps. Qed.

Lemma fire_timer_identity tid w : same_identity w (fire_timer tid w).
Proof.
  unfold fire_timer.
  destruct (timeouts (rt w) !! tid) as [[delay action]|]; [|by split].
  case_bool_decide; [by split|].
  destruct action; simpl.
  - by split.
  - eapply same_identity_trans; [|apply settle_identity].
    eapply same_identity_trans; [|apply off_identity]. by split.
  - eapply same_identity_trans; [|apply settle_identity].
    eapply same_identity_trans; [|apply off_identity]. by split.
Qed.

Lemma foldl_identity {A} (f : World → A → World) (l : list A) :
  (∀ w a, same_identity w (f w a)) → ∀ w, same_identity w (foldl f w l).
Proof.
  intros Hf. induction l as [|a l IH]; intros w; simpl; [by split|].
  eapply same_identity_trans; [apply Hf|apply IH].
Qed.

Lemma hook_mount_identity w : same_identity w (hook_mount w).2.
Proof.
  unfold hook_mount. cbn [snd].
  destruct (foldl_on_only_handlers (hook_handlers (closures (rt w)))
              (set_closures (closures (rt w) + 5) w)) as [table ->].
  by case_match.
Qed.

Section Identity.

Variable JSON_parse : string → option WebSocketMessage.

Lemma step_identity ev w : same_identity w (step JSON_parse ev w).
Proof.
  destruct ev; simpl.
  - eapply same_identity_trans; [apply set_readyState_identity|].
    apply onopen_identity.
  - unfold onmessage, handleMessage. case_match; [|by split].
    eapply same_identity_trans; apply emit_identity.
  - eapply same_identity_trans; [apply set_readyState_identity|].
    apply onclose_identity.
  - apply onerror_identity.
  - apply fire_timer_identity.
  - by split.
  - apply disconnect_identity.
  - apply on_identity.
  - apply off_identity.
  - apply sendMessage_identity.
  - apply subscribe_identity.
  - apply unsubscribe_identity.
  - apply sendMessage_identity.
  - apply sendMessage_identity.
  - apply sendMessage_identity.
  - unfold waitForMessage. simpl.
    eapply same_identity_trans; [|apply on_identity]. by split.
  - unfold waitForCompletion. simpl.
    eapply same_identity_trans; [|apply on_identity]. by split.
  - apply hook_mount_identity.
  - unfold hook_unmount. apply foldl_identity. intros. apply off_identity.
  - unfold hook_subscribe. case_match; [apply subscribe_identity|by split].
  - unfold hook_unsubscribe. case_match; [apply unsubscribe_identity|by split].
  - unfold hook_cancelExecution. case_match; [apply sendMessage_identity|by split].
  - unfold hook_sendMessage. case_match; [apply sendMessage_identity|by split].
  - unfold hook_ping. case_match; [apply sendMessage_identity|by split].
  - by split.
Qed.

Lemma run_identity evs : ∀ w, same_identity w (run JSON_parse evs w).
Proof.
  induction evs as [|ev evs IH]; intros w; [by split|].
  change (run JSON_parse (ev :: evs) w)
    with (run JSON_parse evs (step JSON_parse ev w)).
  eapply same_identity_trans; [apply step_identity|apply IH].
Qed.

End Identity.

Lemma resolve_connect_calls sid w :
  calls (rt (resolve_connect sid w)) = calls (rt w).
Proof.
  assert (∀ ids w0, calls (rt (world_of (resubscribe_loop ids w0)))
                    = calls (rt w0)) as Hloop.
  { induction ids as [|id ids IH]; intros w0; simpl; [done|].
    unfold bind. rewrite subscribe_cases. rewrite IH. simpl.
    by destruct (isConnected w0). }
  unfold resolve_connect. repeat case_match; try done.
  unfold resubscribe.
  match goal with
  | |- context [resubscribe_loop ?ids ?w0] =>
      pose proof (Hloop ids w0) as Hl; destruct (resubscribe_loop ids w0)
  end; simpl in *; by rewrite Hl.
Qed.

(** X18.  No task changes the endpoint or the client identifier: after any
    run they are the ones the client was constructed with, and every handler
    called by a later open event receives a [connected] message carrying that
    identifier. *)
Theorem identity_stable (JSON_parse : string → option WebSocketMessage)
    (evs : list Event) (w : World) (sid : nat) :
  let w1 := run JSON_parse evs w in
  url (client w1) = url (client w) ∧
  clientId (client w1) = clientId (client w) ∧
  Forall (λ c, call_event c = "connected" ∧
               msg_type (call_message c) = "connected" ∧
               data (call_message c) = Some (DClientId (clientId (client w))))
    (drop (length (calls (rt w1)))
       (calls (rt (step JSON_parse (EvOpen sid) w1)))).
Proof.
  cbv zeta. destruct (run_identity JSON_parse evs w) as [Hurl Hid].
  split; [exact Hurl|]. split; [exact Hid|].
  simpl. unfold onopen. rewrite resolve_connect_calls.
  set (w3 := set_reconnectAttempts 0 _).
  set (message := {| msg_type := "connected" |}).
  destruct (emit_spec "connected" message w3) as (t & Hc & Hall & _).
  rewrite Hc.
  assert (calls (rt w3) = calls (rt (run JSON_parse evs w))) as ->
    by (subst w3; unfold set_readyState; by case_match).
  rewrite drop_app_length.
  eapply Forall_impl; [exact Hall|]. intros c [He ->].
  split; [done|]. split; [done|]. subst message. simpl.
  rewrite <- Hid. unfold set_readyState. by case_match.
Qed.

(** ** From the wire to the hook *)

Lemma call_handler_hook event h message w :
  hook (call_handler event h message w) = hook_effect message h (hook w).
Proof.
  unfold call_handler, hook_effect, invoke, lift, ret, throw.
  assert (∀ ev tid pid st w0,
            hook (settle pid st (off ev (hid h) (clearTimeout tid w0)))
            = hook w0) as Hone.
  { intros. unfold settle, off. by repeat case_match. }
  destruct (behaviour h); simpl; repeat case_match; simpl;
    simplify_eq; simpl; first [ done | apply Hone ].
Qed.

Lemma foldl_call_hook event message (l : list Handler) : ∀ w,
  hook (foldl (λ acc h, call_handler event h message acc) w l)
  = foldl (λ acc h, hook_effect message h acc) (hook w) l.
Proof.
  induction l as [|h l IH]; intros w; simpl; [done|].
  by rewrite IH, call_handler_hook.
Qed.






(** X20.  A message whose [type] is the word [message] is dispatched twice
    to the same array: when those handlers stay, each of them is called twice
    with it, first all of them in order and then all of them again. *)
Theorem message_typed_message_twice (message : WebSocketMessage) (w : World) :
  msg_type message = "message" →
  Forall (λ h, stays message h = true) (handlers_of "message" w) →
  calls (rt (handleMessage message w))
  = calls (rt w)
    ++ (call_of "message" message <$> handlers_of "message" w)
    ++ (call_of "message" message <$> handlers_of "message" w).
Proof.
  intros Htype Hstay. unfold handleMessage. rewrite Htype.
  set (w1 := emit "message" message w).
  assert (handlers_of "message" w1 = handlers_of "message" w) as Hsame
    by (apply same_bookkeeping_handlers; by apply emit_stays_kept).
  rewrite (emit_all_stay "message" message w1) by by rewrite Hsame.
  rewrite foldl_call_calls, Hsame. subst w1.
  rewrite emit_all_stay, foldl_call_calls by done.
  by rewrite app_assoc.
Qed.

Lemma message_typed_message_twice_listeners :
  call_hid <$> drop (length (calls (rt two_listeners)))
                 (calls (rt (handleMessage message_message two_listeners)))
  = [100; 101; 100; 101].
Proof.
  rewrite (message_typed_message_twice message_message two_listeners eq_refl).
  - rewrite drop_app_length. by vm_compute.
  - vm_compute. by repeat constructor.
Defined.

Lemma foldl_hook_effect_messages message (l : list Handler) : ∀ hk,
  Forall (λ h, behaviour h ≠ BhHookMessage) l →
  hk_messages (foldl (λ acc h, hook_effect message h acc) hk l)
  = hk_messages hk.
Proof.
  induction l as [|h l IH]; intros hk Hl; simpl; [done|].
  apply Forall_cons in Hl as [Hh Hl]. rewrite IH by done.
  unfold hook_effect, UseWebSocket.handleExecutionUpdate.
  destruct (behaviour h); try done. by repeat case_match.
Qed.

(** X21.  With the hook's message handler registered for [message] among
    handlers that stay, a frame that parses to a message of any other type is
    added to the end of the hook's message log, once. *)
Theorem frame_reaches_message_log
    (JSON_parse : string → option WebSocketMessage) (w : World) (sid : nat)
    (raw : string) (m : WebSocketMessage) (l1 l2 : list Handler)
    (h : Handler) :
  JSON_parse raw = Some m →
  msg_type m ≠ "message" →
  handlers_of "message" w = l1 ++ h :: l2 →
  behaviour h = BhHookMessage →
  Forall (λ h', stays m h' = true ∧ behaviour h' ≠ BhHookMessage) (l1 ++ l2) →
  Forall (λ h', stays m h' = true ∧ behaviour h' ≠ BhHookMessage)
    (handlers_of (msg_type m) w) →
  hk_messages (hook (step JSON_parse (EvMessage sid raw) w))
  = hk_messages (hook w) ++ [m].
Proof.
  intros Hparse Htype Hhs Hh Hrest Hfirst.
  apply Forall_app in Hrest as [H1 H2].
  simpl. unfold onmessage. rewrite Hparse. unfold handleMessage.
  set (w1 := emit (msg_type m) m w).
  assert (Forall (λ h', stays m h' = true) (handlers_of (msg_type m) w))
    as Hstay1 by (eapply Forall_impl; [exact Hfirst|]; by intros ? [? ?]).
  assert (same_bookkeeping w w1) as Hkept by by apply emit_stays_kept.
  assert (hk_messages (hook w1) = hk_messages (hook w)) as Hlog1.
  { subst w1. rewrite emit_all_stay, foldl_call_hook by done.
    apply foldl_hook_effect_messages.
    eapply Forall_impl; [exact Hfirst|]. by intros ? [? ?]. }
  assert (handlers_of "message" w1 = l1 ++ h :: l2) as Hhs1
    by by rewrite (same_bookkeeping_handlers w w1).
  assert (stays m h = true) as Hstay_h by (unfold stays; by rewrite Hh).
  rewrite emit_all_stay, foldl_call_hook, Hhs1.
  - rewrite foldl_app. simpl.
    rewrite foldl_hook_effect_messages
      by (eapply Forall_impl; [exact H2|]; by intros ? [? ?]).
    unfold hook_effect at 1. rewrite Hh. simpl.
    rewrite foldl_hook_effect_messages
      by (eapply Forall_impl; [exact H1|]; by intros ? [? ?]).
    by rewrite Hlog1.
  - rewrite Hhs1. apply Forall_app. split; [|apply Forall_cons; split; [done|]].
    + eapply Forall_impl; [exact H1|]. by intros ? [? ?].
    + eapply Forall_impl; [exact H2|]. by intros ? [? ?].
Qed.

Lemma frame_reaches_message_log_J :
  hk_messages (hook listening) = [] ∧
  hk_messages (hook (step wire (EvMessage 0 "completion of J") listening))
    = [completion_of "J"].
Proof.
  split; [by vm_compute|].
  assert (msg_type (completion_of "J") ≠ "message") as Htype by done.
  rewrite (frame_reaches_message_log wire listening 0 "completion of J"
             (completion_of "J") [] []
             {| hid := 2; behaviour := BhHookMessage |}
             eq_refl Htype eq_refl eq_refl).
  - by vm_compute.
  - by constructor.
  - vm_compute. by repeat constructor.
Defined.
